(** * Health-Connect frontend: slot catalog and weekly schedule model

    A shallow embedding of [utils/timeSlots.ts] and of the schedule
    functions of [pages/DoctorProfile.tsx], with the properties of the
    slot/schedule subsystem proved over it.

    JavaScript values are modelled as follows: integral numbers as [Z],
    strings as [string], arrays as [list] (index lookup [!!], index
    update [<[i:=x]>]), a possibly-undefined value as [option]. *)

From Stdlib Require Import ZArith String Ascii List Lia Sorted Permutation.
From stdpp Require Import base decidable option list numbers strings pretty sorting gmap.

Local Open Scope Z_scope.
Local Open Scope string_scope.
Local Open Scope list_scope.

(** ** The fragment of the JavaScript runtime the program uses *)

Module JS.

(** [String.prototype.padStart(n, c)] for a one-character pad [c]. *)
Fixpoint replicate_char (k : nat) (c : ascii) : string :=
  match k with
  | O => ""
  | S k' => String c (replicate_char k' c)
  end.

Definition padStart (targetLength : nat) (c : ascii) (s : string) : string :=
  replicate_char (targetLength - String.length s) c +:+ s.

(** [Number.prototype.toString()] on an integral number. *)
Definition toString (n : Z) : string := pretty n.

(** [String.prototype.split(sep)] for a one-character separator. *)
Fixpoint split (sep : ascii) (s : string) : list string :=
  match s with
  | EmptyString => [""]
  | String c s' =>
      if decide (c = sep) then "" :: split sep s'
      else match split sep s' with
           | w :: ws => String c w :: ws
           | [] => [String c ""]
           end
  end.

(** [Number(s)] on the strings it maps to a natural number written in
    decimal digits; the empty string converts to 0 as in JavaScript.
    [None] stands for every other input (signs, blanks, fractions,
    exponents, hexadecimal, and the strings that convert to NaN), which
    this model does not cover. *)
Definition digit (c : ascii) : option Z :=
  let n := Z.of_nat (nat_of_ascii c) in
  if decide (48 <= n <= 57) then Some (n - 48) else None.

Fixpoint Number_go (acc : Z) (s : string) : option Z :=
  match s with
  | EmptyString => Some acc
  | String c s' =>
      match digit c with
      | Some d => Number_go (10 * acc + d) s'
      | None => None
      end
  end.

Definition Number (s : string) : option Z := Number_go 0 s.

(** [Array.prototype.find]: the first element satisfying the predicate,
    [None] for [undefined]. *)
Definition find {A} (P : A → Prop) `{∀ x, Decision (P x)} (l : list A) : option A :=
  snd <$> list_find P l.

(** [Array.prototype.sort(cmp)]. The language requires the sort to be
    stable, so for a consistent comparator the result does not depend on
    the algorithm; it is given here as a stable insertion sort. *)
Section Sort.
Context {A : Type} (cmp : A → A → Z).

Fixpoint sort_insert (x : A) (l : list A) : list A :=
  match l with
  | [] => [x]
  | y :: l' => if decide (cmp x y <= 0) then x :: y :: l' else y :: sort_insert x l'
  end.

Definition sort (l : list A) : list A := foldr sort_insert [] l.
End Sort.

(** [>] on array lengths. *)
#[global] Instance nat_gt_dec (x y : nat) : Decision (x > y)%nat := decide (y < x)%nat.

(** Truthiness of a possibly-undefined boolean. *)
Definition truthy (b : option bool) : bool :=
  match b with Some true => true | _ => false end.

End JS.

(** ** utils/timeSlots.ts *)

Module TimeSlots.

Record TimeSlot := mkTimeSlot {
  slotNumber : Z;
  startTime : string;
  endTime : string
}.

Record TimeBlock := mkTimeBlock {
  label : string;
  startSlot : Z;
  endSlot : Z;
  blockStartTime : string;
  blockEndTime : string
}.

#[global] Instance TimeSlot_eq_dec : EqDecision TimeSlot.
Proof. solve_decision. Defined.

#[global] Instance TimeBlock_eq_dec : EqDecision TimeBlock.
Proof. solve_decision. Defined.

Definition startHour : Z := 9.
Definition endHour : Z := 21.
Definition intervalMinutes : Z := 15.

(** [n.toString().padStart(2, '0')] *)
Definition two_digits (n : Z) : string := JS.padStart 2 "0" (JS.toString n).

(** The state the two loops of [generateTimeSlots] thread: the array
    built so far and the counter [slotNumber]. *)
Record gen_state := mkGen {
  gen_slots : list TimeSlot;
  gen_slotNumber : Z
}.

(** Body of the inner loop. *)
Definition push_slot (hour minute : Z) (st : gen_state) : gen_state :=
  let startTime := two_digits hour +:+ ":" +:+ two_digits minute in
  let endHour := hour in
  let endMinute := minute + intervalMinutes in
  let '(endHour, endMinute) :=
    if decide (endMinute >= 60) then (endHour + 1, endMinute - 60)
    else (endHour, endMinute) in
  let endTime := two_digits endHour +:+ ":" +:+ two_digits endMinute in
  {| gen_slots := gen_slots st ++ [mkTimeSlot (gen_slotNumber st) startTime endTime];
     gen_slotNumber := gen_slotNumber st + 1 |}.

(** [for (let minute = 0; minute < 60; minute += intervalMinutes)],
    entered at [minute]; [None] when the fuel runs out. *)
Fixpoint minute_loop (fuel : nat) (hour minute : Z) (st : gen_state) : option gen_state :=
  match fuel with
  | O => None
  | S fuel' =>
      if decide (minute < 60)
      then minute_loop fuel' hour (minute + intervalMinutes) (push_slot hour minute st)
      else Some st
  end.

(** [for (let hour = startHour; hour < endHour; hour++)], entered at
    [hour]. *)
Fixpoint hour_loop (fuel : nat) (hour : Z) (st : gen_state) : option gen_state :=
  match fuel with
  | O => None
  | S fuel' =>
      if decide (hour < endHour)
      then st' ← minute_loop fuel hour 0 st; hour_loop fuel' (hour + 1) st'
      else Some st
  end.

Definition generateTimeSlots (fuel : nat) : option (list TimeSlot) :=
  gen_slots <$> hour_loop fuel startHour (mkGen [] 1).

(** The module-level constant: the value [generateTimeSlots()] returns
    (see [generateTimeSlots_returns] below). *)
Definition FIXED_TIME_SLOTS : list TimeSlot :=
  default [] (generateTimeSlots 16).

Definition TIME_BLOCKS : list TimeBlock :=
  [ mkTimeBlock "9:00 AM - 11:00 AM" 1 8 "09:00" "11:00";
    mkTimeBlock "11:00 AM - 1:00 PM" 9 16 "11:00" "13:00";
    mkTimeBlock "1:00 PM - 3:00 PM" 17 24 "13:00" "15:00";
    mkTimeBlock "3:00 PM - 5:00 PM" 25 32 "15:00" "17:00";
    mkTimeBlock "5:00 PM - 7:00 PM" 33 40 "17:00" "19:00";
    mkTimeBlock "7:00 PM - 9:00 PM" 41 48 "19:00" "21:00" ].

(** Membership of a slot number in a block's inclusive range. *)
Definition in_block (block : TimeBlock) (n : Z) : Prop :=
  n >= startSlot block ∧ n <= endSlot block.

#[global] Instance in_block_dec block n : Decision (in_block block n).
Proof. unfold in_block. apply _. Defined.

(** [getSlotsForBlock]. The index is an integral number. [None] stands
    for the TypeError that reading a field of [TIME_BLOCKS[blockIndex]]
    raises when that element is undefined. *)
Definition getSlotsForBlock (blockIndex : Z) : option (list TimeSlot) :=
  if decide (blockIndex < 0 ∨ blockIndex >= Z.of_nat (length TIME_BLOCKS))
  then Some []
  else
    block ← TIME_BLOCKS !! Z.to_nat blockIndex;
    Some (filter (λ slot, in_block block (slotNumber slot)) FIXED_TIME_SLOTS).

(** [getBlockForSlot]: [None] is the result [null]. *)
Definition getBlockForSlot (slotNumber : Z) : option TimeBlock :=
  JS.find (λ block, in_block block slotNumber) TIME_BLOCKS.

(** [formatTime12Hour]. [None] covers the inputs outside the model of
    [JS.Number] and the TypeError raised when the string has no colon
    ([minutes] is then undefined). *)
Definition formatTime12Hour (time : string) : option string :=
  match JS.split ":" time with
  | hs :: ms :: _ =>
      hours ← JS.Number hs;
      minutes ← JS.Number ms;
      let period := if decide (hours >= 12) then "PM" else "AM" in
      let displayHours :=
        if decide (hours = 0) then 12
        else if decide (hours > 12) then hours - 12 else hours in
      Some (JS.toString displayHours +:+ ":" +:+ two_digits minutes +:+ " " +:+ period)
  | _ => None
  end.

(** [getSlotByNumber]: [None] is the result [undefined]. *)
Definition getSlotByNumber (n : Z) : option TimeSlot :=
  JS.find (λ slot, slotNumber slot = n) FIXED_TIME_SLOTS.

End TimeSlots.

(** ** types/index.ts *)

Module Types.

Inductive Day :=
  | Monday | Tuesday | Wednesday | Thursday | Friday | Saturday | Sunday.

#[global] Instance Day_eq_dec : EqDecision Day.
Proof. solve_decision. Defined.

(** [isAvailable] is declared boolean, but the schedule received from the
    backend may lack it, which [initializeSchedule] handles with [??]:
    [None] is the undefined field. *)
Record Slot := mkSlot {
  slotNumber : Z;
  startTime : string;
  endTime : string;
  isAvailable : option bool
}.

Record Schedule := mkSchedule {
  day : Day;
  slots : list Slot
}.

#[global] Instance Slot_eq_dec : EqDecision Slot.
Proof. solve_decision. Defined.

#[global] Instance Schedule_eq_dec : EqDecision Schedule.
Proof. solve_decision. Defined.

End Types.

(** ** pages/DoctorProfile.tsx *)

Module DoctorProfile.
Import Types.

Record DoctorFormData := mkFormData {
  name : string;
  email : string;
  avatar : string;
  specialization : string;
  experience : Z;
  qualification : string;
  about : string;
  contactNumber : string;
  schedule : list Schedule
}.

Definition days : list Day :=
  [Monday; Tuesday; Wednesday; Thursday; Friday; Saturday; Sunday].

(** The object literal rebuilt for every carried-over slot. *)
Definition normalizeSlot (slot : Slot) : Slot :=
  {| slotNumber := slotNumber slot;
     startTime := startTime slot;
     endTime := endTime slot;
     isAvailable := Some (default true (isAvailable slot)) |}.

(** The callback [initializeSchedule] maps over the weekday names. *)
Definition initializeDay (existingSchedule : list Schedule) (day : Day) : Schedule :=
  match JS.find (λ s, Types.day s = day) existingSchedule with
  | Some existingDay =>
      {| day := day; slots := normalizeSlot <$> slots existingDay |}
  | None => {| day := day; slots := [] |}
  end.

Definition initializeSchedule (existingSchedule : list Schedule) : list Schedule :=
  initializeDay existingSchedule <$> days.

(** The comparator [(a, b) => a.slotNumber - b.slotNumber]. *)
Definition bySlotNumber (a b : Slot) : Z := slotNumber a - slotNumber b.

(** The object literal [{...slot, isAvailable: !slot.isAvailable}]. *)
Definition toggledSlot (slot : Slot) : Slot :=
  {| slotNumber := slotNumber slot;
     startTime := startTime slot;
     endTime := endTime slot;
     isAvailable := Some (negb (JS.truthy (isAvailable slot))) |}.

(** The object literal [{...fixedSlot, isAvailable: true}]. *)
Definition openedSlot (fixedSlot : TimeSlots.TimeSlot) : Slot :=
  {| slotNumber := TimeSlots.slotNumber fixedSlot;
     startTime := TimeSlots.startTime fixedSlot;
     endTime := TimeSlots.endTime fixedSlot;
     isAvailable := Some true |}.

(** The callback [toggleSlotAvailability] maps over the schedule.
    [list_find] gives the index [findIndex] returns together with the
    element the code then reads at that index; [None] is the index -1. *)
Definition toggleDay (day : Day) (n : Z) (scheduleDay : Schedule) : Schedule :=
  if decide (Types.day scheduleDay = day) then
    match list_find (λ s, slotNumber s = n) (slots scheduleDay) with
    | Some (existingSlotIndex, existing) =>
        let updatedSlots := slots scheduleDay in
        {| day := Types.day scheduleDay;
           slots := <[existingSlotIndex := toggledSlot existing]> updatedSlots |}
    | None =>
        match JS.find (λ s, TimeSlots.slotNumber s = n) TimeSlots.FIXED_TIME_SLOTS with
        | Some fixedSlot =>
            {| day := Types.day scheduleDay;
               slots := JS.sort bySlotNumber (slots scheduleDay ++ [openedSlot fixedSlot]) |}
        | None => scheduleDay
        end
    end
  else scheduleDay.

Definition updatedSchedule (schedule : list Schedule) (day : Day) (n : Z) : list Schedule :=
  toggleDay day n <$> schedule.

(** [toggleSlotAvailability] as a transformer of the component state
    [formData] ([None] is the null state, left as it is). *)
Definition toggleSlotAvailability (formData : option DoctorFormData)
    (day : Day) (n : Z) : option DoctorFormData :=
  match formData with
  | None => None
  | Some fd =>
      Some {| name := name fd; email := email fd; avatar := avatar fd;
              specialization := specialization fd; experience := experience fd;
              qualification := qualification fd; about := about fd;
              contactNumber := contactNumber fd;
              schedule := updatedSchedule (schedule fd) day n |}
  end.

Definition getSelectedSlotsForDay (formData : option DoctorFormData) (day : Day) : list Z :=
  match formData with
  | None => []
  | Some fd =>
      match JS.find (λ s, Types.day s = day) (schedule fd) with
      | None => []
      | Some scheduleDay =>
          slotNumber <$> filter (λ slot, JS.truthy (isAvailable slot)) (slots scheduleDay)
      end
  end.

(** The value [cleanedSchedule] that [handleSubmit] sends. *)
Definition cleanedSchedule (schedule : list Schedule) : list Schedule :=
  filter (λ day, (length (slots day) > 0)%nat)
    ((λ day, {| day := Types.day day;
                slots := filter (λ slot, JS.truthy (isAvailable slot)) (slots day) |})
       <$> schedule).

End DoctorProfile.

(** ** pages/DoctorProfile.tsx: the form handlers *)

Module DoctorProfileForm.
Import Types.

(** [value.replace(/\D/g, '')]: the decimal digits of [value], in order.
    Strings are sequences of 8-bit characters; on ASCII text their length
    is the JavaScript length. *)
Fixpoint removeNonDigits (value : string) : string :=
  match value with
  | EmptyString => EmptyString
  | String c rest =>
      match JS.digit c with
      | Some _ => String c (removeNonDigits rest)
      | None => removeNonDigits rest
      end
  end.

(** The spread [{...prev, [name]: v}] for a string value [v], on the
    fields the form state declares. A name that is no field of the state
    adds a property the model does not track and leaves the declared
    fields as they are; [None] is the name [schedule], whose field does
    not hold a string. *)
Definition setStringField (prev : DoctorProfile.DoctorFormData) (name v : string)
    : option DoctorProfile.DoctorFormData :=
  let '(DoctorProfile.mkFormData n e a sp ex q ab cn sch) := prev in
  if decide (name = "name") then Some (DoctorProfile.mkFormData v e a sp ex q ab cn sch)
  else if decide (name = "email") then Some (DoctorProfile.mkFormData n v a sp ex q ab cn sch)
  else if decide (name = "avatar") then Some (DoctorProfile.mkFormData n e v sp ex q ab cn sch)
  else if decide (name = "specialization") then Some (DoctorProfile.mkFormData n e a v ex q ab cn sch)
  else if decide (name = "qualification") then Some (DoctorProfile.mkFormData n e a sp ex v ab cn sch)
  else if decide (name = "about") then Some (DoctorProfile.mkFormData n e a sp ex q v cn sch)
  else if decide (name = "contactNumber") then Some (DoctorProfile.mkFormData n e a sp ex q ab v sch)
  else if decide (name = "schedule") then None
  else Some prev.

(** [handleChange] on the event target's [name] and [value], as a
    transformer of the state [formData]. The outer [None] covers the
    inputs outside the model: [Number(value)] beyond [JS.Number], and the
    name [schedule]. *)
Definition handleChange (formData : option DoctorProfile.DoctorFormData)
    (name value : string) : option (option DoctorProfile.DoctorFormData) :=
  match formData with
  | None => Some None
  | Some prev =>
      if decide (name = "contactNumber") then
        let digits := removeNonDigits value in
        if decide (String.length digits <= 10)%nat
        then Some <$> setStringField prev name digits
        else Some (Some prev)
      else if decide (name = "experience") then
        v ← JS.Number value;
        let '(DoctorProfile.mkFormData n e a sp _ q ab cn sch) := prev in
        Some (Some (DoctorProfile.mkFormData n e a sp v q ab cn sch))
      else Some <$> setStringField prev name value
  end.

(** The object [submitData] that [handleSubmit] passes to
    [doctorService.updateDoctorProfile]. *)
Record SubmitData := mkSubmitData {
  name : string;
  specialization : string;
  experience : Z;
  qualification : string;
  about : string;
  contactNumber : string;
  avatar : string;
  schedule : list Schedule
}.

(** The first half of [handleSubmit], up to the service call. *)
Inductive SubmitStep :=
  | NoForm
  | Rejected (error : string)
  | Request (submitData : SubmitData).

Definition handleSubmit_request (formData : option DoctorProfile.DoctorFormData)
    : SubmitStep :=
  match formData with
  | None => NoForm
  | Some fd =>
      if decide (DoctorProfile.contactNumber fd ≠ "" ∧
                 String.length (DoctorProfile.contactNumber fd) ≠ 10%nat)
      then Rejected "Contact number must be exactly 10 digits"
      else Request
        {| name := DoctorProfile.name fd;
           specialization := DoctorProfile.specialization fd;
           experience := DoctorProfile.experience fd;
           qualification := DoctorProfile.qualification fd;
           about := DoctorProfile.about fd;
           contactNumber := DoctorProfile.contactNumber fd;
           avatar := DoctorProfile.avatar fd;
           schedule := DoctorProfile.cleanedSchedule (DoctorProfile.schedule fd) |}
  end.

(** The fields of the service's response that [handleSubmit] reads;
    [None] is an undefined field. *)
Record DoctorResponse := mkResponse {
  res_name : option string;
  res_email : option string;
  res_avatar : option string;
  res_specialization : option string;
  res_experience : option Z;
  res_qualification : option string;
  res_about : option string;
  res_contactNumber : option string;
  res_schedule : option (list Schedule)
}.

(** The object [newFormData] built from the response ([x || ''],
    [x || 0], [x || []]). *)
Definition newFormData (response : DoctorResponse) : DoctorProfile.DoctorFormData :=
  DoctorProfile.mkFormData
    (default "" (res_name response))
    (default "" (res_email response))
    (default "" (res_avatar response))
    (default "" (res_specialization response))
    (default 0 (res_experience response))
    (default "" (res_qualification response))
    (default "" (res_about response))
    (default "" (res_contactNumber response))
    (DoctorProfile.initializeSchedule (default [] (res_schedule response))).

(** The second half of [handleSubmit]: the form state after the service
    call; [None] is a call that threw, which leaves the state alone. *)
Definition handleSubmit_response (formData : option DoctorProfile.DoctorFormData)
    (result : option DoctorResponse) : option DoctorProfile.DoctorFormData :=
  match result with
  | Some response => Some (newFormData response)
  | None => formData
  end.

End DoctorProfileForm.

(** ** components/TimeBlockSelector.tsx *)

Module TimeBlockSelector.
Import TimeSlots.

(** The props the component computes with ([None] for [availableSlots]
    is the prop left out). *)
Record Props := mkProps {
  selectedSlots : list Z;
  readOnly : bool;
  availableSlots : option (list Z)
}.

(** [toggleBlock] on the state [expandedBlocks], a set of block indices. *)
Definition toggleBlock (expandedBlocks : gset Z) (blockIndex : Z) : gset Z :=
  let newExpanded := expandedBlocks in
  if decide (blockIndex ∈ newExpanded)
  then newExpanded ∖ {[blockIndex]}
  else newExpanded ∪ {[blockIndex]}.

Definition isSlotSelected (props : Props) (slotNumber : Z) : bool :=
  bool_decide (slotNumber ∈ selectedSlots props).

Definition getBlockSelectedCount (props : Props) (blockIndex : Z) : option nat :=
  blockSlots ← getSlotsForBlock blockIndex;
  Some (length (filter (λ slot, isSlotSelected props (slotNumber slot)) blockSlots)).

Definition getFilteredSlotsForBlock (props : Props) (blockIndex : Z)
    : option (list TimeSlot) :=
  blockSlots ← getSlotsForBlock blockIndex;
  match availableSlots props with
  | Some available =>
      if decide (length available > 0)%nat
      then Some (filter (λ slot, slotNumber slot ∈ available) blockSlots)
      else Some blockSlots
  | None => Some blockSlots
  end.

(** One slot button of an expanded block. *)
Record SlotButton := mkButton {
  button_slot : TimeSlot;
  isSelected : bool;
  disabled : bool;
  startLabel : option string;
  endLabel : option string
}.

(** What the component shows for one block. [badge] is the text of the
    slot-count pill when it is shown; [buttons] are the slot buttons
    when the block is expanded. *)
Record BlockView := mkBlockView {
  block : TimeBlock;
  isExpanded : bool;
  blockSlots : list TimeSlot;
  selectedCount : nat;
  hasSlots : bool;
  badge : option string;
  buttons : option (list SlotButton)
}.

Definition slotButton (props : Props) (slot : TimeSlot) : SlotButton :=
  let isSelected := isSlotSelected props (slotNumber slot) in
  {| button_slot := slot;
     isSelected := isSelected;
     disabled := readOnly props && negb isSelected;
     startLabel := formatTime12Hour (startTime slot);
     endLabel := formatTime12Hour (endTime slot) |}.

(** The callback of [TIME_BLOCKS.map]: the outer [None] is a thrown
    TypeError, the inner [None] the block rendered as [null]. *)
Definition renderBlock (props : Props) (expandedBlocks : gset Z)
    (blockIndex : nat) (block : TimeBlock) : option (option BlockView) :=
  let isExpanded := bool_decide (Z.of_nat blockIndex ∈ expandedBlocks) in
  blockSlots ← getFilteredSlotsForBlock props (Z.of_nat blockIndex);
  selectedCount ← getBlockSelectedCount props (Z.of_nat blockIndex);
  let hasSlots := bool_decide (selectedCount > 0)%nat in
  if bool_decide (is_Some (availableSlots props)) && bool_decide (length blockSlots = 0%nat)
  then Some None
  else
    let shown := match availableSlots props with
                 | Some _ => length blockSlots
                 | None => selectedCount
                 end in
    Some (Some
      {| block := block;
         isExpanded := isExpanded;
         blockSlots := blockSlots;
         selectedCount := selectedCount;
         hasSlots := hasSlots;
         badge :=
           if hasSlots || (bool_decide (is_Some (availableSlots props)) &&
                           bool_decide (length blockSlots > 0)%nat)
           then Some (JS.toString (Z.of_nat shown) +:+ " slot" +:+
                      (if decide (shown ≠ 1%nat) then "s" else ""))
           else None;
         buttons :=
           if isExpanded then Some (slotButton props <$> blockSlots) else None |}).

Definition render (props : Props) (expandedBlocks : gset Z)
    : option (list (option BlockView)) :=
  mapM (λ '(blockIndex, block), renderBlock props expandedBlocks blockIndex block)
       (imap (λ blockIndex block, (blockIndex, block)) TIME_BLOCKS).

(** The click handler of a slot button,
    [() => !readOnly && onSlotToggle(slot.slotNumber)], over the state
    the parent's callback transforms. *)
Definition slotClick {St} (props : Props) (onSlotToggle : Z → St → St)
    (slotNumber : Z) (st : St) : St :=
  if readOnly props then st else onSlotToggle slotNumber st.

End TimeBlockSelector.

(** ** pages/DoctorPage.tsx: the slot picker and the schedule listing *)

Module DoctorPage.
Import TimeSlots.

(** The callback passed as [onSlotToggle], on the state [selectedSlot]. *)
Definition onSlotToggle (availableSlots : list TimeSlot) (slotNumber : Z)
    (selectedSlot : option TimeSlot) : option TimeSlot :=
  match JS.find (λ s, TimeSlots.slotNumber s = slotNumber) availableSlots with
  | Some slot => Some slot
  | None => selectedSlot
  end.

(** What the page shows below the date input. *)
Inductive SlotPicker :=
  | NoPicker
  | Spinner
  | Selector (props : TimeBlockSelector.Props)
  | NoSlotsMessage.

Definition slotPicker (selectedDate : string) (isFetchingSlots : bool)
    (availableSlots : list TimeSlot) (selectedSlot : option TimeSlot) : SlotPicker :=
  if decide (selectedDate = "") then NoPicker
  else if isFetchingSlots then Spinner
  else if decide (length availableSlots > 0)%nat then
    Selector
      {| TimeBlockSelector.selectedSlots :=
           match selectedSlot with
           | Some slot => [slotNumber slot]
           | None => []
           end;
         TimeBlockSelector.readOnly := false;
         TimeBlockSelector.availableSlots := Some (slotNumber <$> availableSlots) |}
  else NoSlotsMessage.



End DoctorPage.

(** ** Specification vocabulary *)

Module Spec.

(** The minute of the day a wall-clock string [HH:MM] denotes: exactly
    two digits, a colon, two digits, with [HH < 24] and [MM < 60]. *)
Definition minutes_of_day (t : string) : option Z :=
  match t with
  | String h1 (String h2 (String c (String m1 (String m2 EmptyString)))) =>
      if decide (c = ":"%char) then
        a ← JS.digit h1; b ← JS.digit h2; x ← JS.digit m1; y ← JS.digit m2;
        let h := 10 * a + b in
        let m := 10 * x + y in
        if decide (h < 24 ∧ m < 60) then Some (60 * h + m) else None
      else None
  | _ => None
  end.

(** Decimal numerals, written out digit by digit: [two_digit n] is the
    two-character numeral of [n < 100], [numeral n] the numeral without
    a leading zero. *)
Definition digit_char (d : Z) : ascii := ascii_of_nat (48 + Z.to_nat d).

Definition two_digit (n : Z) : string :=
  String (digit_char (n / 10)) (String (digit_char (n mod 10)) EmptyString).

Definition numeral (n : Z) : string :=
  if decide (n < 10) then String (digit_char n) EmptyString else two_digit n.

(** The string [HH:MM] for hour [h] and minute [m]. *)
Definition clock (h m : Z) : string := two_digit h +:+ ":" +:+ two_digit m.

(** The display policy of the 12-hour clock. *)
Definition display_hour (h : Z) : Z :=
  if decide (h = 0) then 12
  else if decide (13 <= h <= 23) then h - 12
  else h.

Definition period (h : Z) : string := if decide (h < 12) then "AM" else "PM".

(** A form state with the given schedule and blank profile fields. *)
Definition form0 (schedule : list Types.Schedule) : DoctorProfile.DoctorFormData :=
  DoctorProfile.mkFormData "" "" "" "" 0 "" "" "" schedule.

(** The selected slot numbers of one schedule entry. *)
Definition selectedOf (sd : Types.Schedule) : list Z :=
  Types.slotNumber <$>
    filter (λ slot, JS.truthy (Types.isAvailable slot)) (Types.slots sd).

End Spec.

(** ** Vocabulary for the schedule invariants and the rendered views *)

Module Views.

(** A slot that agrees with the catalog entry of its number. *)
Definition catalog_slot (x : Types.Slot) : Prop :=
  ∃ c, c ∈ TimeSlots.FIXED_TIME_SLOTS ∧
       Types.slotNumber x = TimeSlots.slotNumber c ∧
       Types.startTime x = TimeSlots.startTime c ∧
       Types.endTime x = TimeSlots.endTime c.

(** A schedule whose every day lists catalog slots with strictly
    ascending slot numbers. *)
Definition tidy (schedule : list Types.Schedule) : Prop :=
  ∀ sd, sd ∈ schedule →
    StronglySorted Z.lt (Types.slotNumber <$> Types.slots sd) ∧
    Forall catalog_slot (Types.slots sd).

(** A run of slot clicks, each a weekday and a slot number. *)
Definition toggles (formData : option DoctorProfile.DoctorFormData)
    (clicks : list (Types.Day * Z)) : option DoctorProfile.DoctorFormData :=
  foldl (λ st click, DoctorProfile.toggleSlotAvailability st click.1 click.2)
        formData clicks.

(** The entry [cleanedSchedule] maps a day to, before empty days go. *)
Definition cleanDay (sd : Types.Schedule) : Types.Schedule :=
  {| Types.day := Types.day sd;
     Types.slots := filter (λ slot, JS.truthy (Types.isAvailable slot)) (Types.slots sd) |}.

(** The selected numbers of the entry [getSelectedSlotsForDay] finds. *)
Definition selectedIn (s : list Types.Schedule) (d : Types.Day) : list Z :=
  match JS.find (λ x, Types.day x = d) s with
  | Some sd => Spec.selectedOf sd
  | None => []
  end.

(** A string of decimal digits only. *)
Fixpoint all_digits (s : string) : Prop :=
  match s with
  | EmptyString => True
  | String c rest => is_Some (JS.digit c) ∧ all_digits rest
  end.

(** Reading a 12-hour display string [H:MM AM] or [H:MM PM] back as
    hour and minute of the 24-hour clock. *)
Definition read12 (shown : string) : option (Z * Z) :=
  match JS.split ":" shown with
  | [hs; rest] =>
      match JS.split " " rest with
      | [ms; suffix] =>
          h ← JS.Number hs;
          m ← JS.Number ms;
          if decide (suffix = "AM") then Some (if decide (h = 12) then 0 else h, m)
          else if decide (suffix = "PM") then Some (if decide (h = 12) then 12 else h + 12, m)
          else None
      | _ => None
      end
  | _ => None
  end.

(** A string in which the character [c] does not occur. *)
Fixpoint lacks (c : ascii) (s : string) : Prop :=
  match s with
  | EmptyString => True
  | String c' rest => c' ≠ c ∧ lacks c rest
  end.

(** How often a weekday and slot number occur in a run of clicks. *)
Definition clickCount (clicks : list (Types.Day * Z)) (d : Types.Day) (n : Z) : nat :=
  length (filter (λ click, click = (d, n)) clicks).

(** The catalog slots within a block's bounds. *)
Definition blockSlotsOf (b : TimeSlots.TimeBlock) : list TimeSlots.TimeSlot :=
  filter (λ slot, TimeSlots.in_block b (TimeSlots.slotNumber slot))
         TimeSlots.FIXED_TIME_SLOTS.

(** The slots of a block that the selector offers under its props. *)
Definition shownSlots (props : TimeBlockSelector.Props) (b : TimeSlots.TimeBlock)
    : list TimeSlots.TimeSlot :=
  match TimeBlockSelector.availableSlots props with
  | Some available =>
      if decide (available = []) then blockSlotsOf b
      else filter (λ slot, TimeSlots.slotNumber slot ∈ available) (blockSlotsOf b)
  | None => blockSlotsOf b
  end.

(** The number of a block's catalog slots that are selected. *)
Definition countIn (props : TimeBlockSelector.Props) (b : TimeSlots.TimeBlock) : nat :=
  length (filter (λ slot, TimeSlots.slotNumber slot ∈ TimeBlockSelector.selectedSlots props)
                 (blockSlotsOf b)).

(** The text of the slot-count pill for a count. *)
Definition badgeText (k : nat) : string :=
  JS.toString (Z.of_nat k) +:+ (if decide (k = 1%nat) then " slot" else " slots").

(** The sum of the selected counts of the blocks shown. *)
Definition selectedTotal (views : list (option TimeBlockSelector.BlockView)) : nat :=
  sum_list ((λ v, match v with
                  | Some view => TimeBlockSelector.selectedCount view
                  | None => 0%nat
                  end) <$> views).

(** What the selector shows for a block of the table: [None] for a
    hidden block, else the view with its fields. *)
Definition rendered (props : TimeBlockSelector.Props) (b : TimeSlots.TimeBlock)
    (r : option TimeBlockSelector.BlockView) : Prop :=
  (r = None ↔ is_Some (TimeBlockSelector.availableSlots props) ∧ shownSlots props b = []) ∧
  ∀ v, r = Some v →
    TimeBlockSelector.block v = b ∧
    TimeBlockSelector.blockSlots v = shownSlots props b ∧
    TimeBlockSelector.selectedCount v = countIn props b ∧
    TimeBlockSelector.hasSlots v = bool_decide (countIn props b > 0)%nat ∧
    TimeBlockSelector.buttons v =
      (if TimeBlockSelector.isExpanded v
       then Some (TimeBlockSelector.slotButton props <$> TimeBlockSelector.blockSlots v)
       else None) ∧
    TimeBlockSelector.badge v =
      match TimeBlockSelector.availableSlots props with
      | Some _ => Some (badgeText (length (TimeBlockSelector.blockSlots v)))
      | None => if decide (countIn props b = 0%nat) then None
                else Some (badgeText (countIn props b))
      end.

(** The slots of the blocks a rendered selector shows, top to bottom. *)
Definition visibleSlots (views : list (option TimeBlockSelector.BlockView))
    : list TimeSlots.TimeSlot :=
  concat ((λ v, match v with
                | Some view => TimeBlockSelector.blockSlots view
                | None => []
                end) <$> views).

End Views.

(** * Properties *)

(** ** The slot catalog *)

Section Catalog.
Import TimeSlots.

Lemma minute_loop_fuel_mono fuel fuel' hour minute st r :
  (fuel ≤ fuel')%nat →
  minute_loop fuel hour minute st = Some r →
  minute_loop fuel' hour minute st = Some r.
Proof.
  revert fuel' minute st. induction fuel as [|fuel IH]; intros fuel' minute st Hle Hrun.
  - discriminate.
  - destruct fuel' as [|fuel']; [lia|]. simpl in *.
    destruct (decide (minute < 60)); [|done].
    apply IH; [lia|done].
Qed.

Lemma hour_loop_fuel_mono fuel fuel' hour st r :
  (fuel ≤ fuel')%nat →
  hour_loop fuel hour st = Some r →
  hour_loop fuel' hour st = Some r.
Proof.
  revert fuel' hour st. induction fuel as [|fuel IH]; intros fuel' hour st Hle Hrun.
  - discriminate.
  - destruct fuel' as [|fuel']; [lia|].
    cbn [hour_loop] in *.
    destruct (decide (hour < endHour)); [|done].
    destruct (minute_loop (S fuel) hour 0 st) as [st'|] eqn:Hm; [|discriminate].
    rewrite (minute_loop_fuel_mono (S fuel) (S fuel') hour 0 st st') by (lia || done).
    cbn [mbind option_bind] in *. apply IH; [lia|done].
Qed.

(** [generateTimeSlots()] returns, and returns the catalog: every
    amount of fuel from 16 on gives the same array. *)
Lemma generateTimeSlots_returns fuel :
  (16 ≤ fuel)%nat → generateTimeSlots fuel = Some FIXED_TIME_SLOTS.
Proof.
  intros Hle. unfold generateTimeSlots.
  destruct (hour_loop 16 startHour (mkGen [] 1)) as [r|] eqn:Hrun;
    [|by vm_compute in Hrun].
  rewrite (hour_loop_fuel_mono 16 fuel _ _ r Hle Hrun).
  unfold FIXED_TIME_SLOTS, generateTimeSlots. by rewrite Hrun.
Qed.

(** C1. The catalog [generateTimeSlots] returns has exactly 48 slots,
    numbered 1..48 in ascending order; slot 1 starts at 09:00 and slot 48
    ends at 21:00; each slot ends where the next one starts; and every
    slot's end time is its start time plus 15 minutes, both being times
    of the same day. *)
Theorem catalog_complete_contiguous :
  (∀ fuel, (16 ≤ fuel)%nat → generateTimeSlots fuel = Some FIXED_TIME_SLOTS) ∧
  length FIXED_TIME_SLOTS = 48%nat ∧
  slotNumber <$> FIXED_TIME_SLOTS = seqZ 1 48 ∧
  (∃ s, FIXED_TIME_SLOTS !! 0%nat = Some s ∧ slotNumber s = 1 ∧ startTime s = "09:00") ∧
  (∃ s, FIXED_TIME_SLOTS !! 47%nat = Some s ∧ slotNumber s = 48 ∧ endTime s = "21:00") ∧
  (∀ n : nat, (1 ≤ n ≤ 47)%nat →
     ∃ a b, FIXED_TIME_SLOTS !! (n - 1)%nat = Some a ∧ FIXED_TIME_SLOTS !! n = Some b ∧
            slotNumber a = Z.of_nat n ∧ slotNumber b = Z.of_nat n + 1 ∧
            endTime a = startTime b) ∧
  (∀ s, s ∈ FIXED_TIME_SLOTS →
     ∃ m, Spec.minutes_of_day (startTime s) = Some m ∧
          Spec.minutes_of_day (endTime s) = Some (m + 15)).
Proof.
  split; [exact generateTimeSlots_returns|].
  split; [by vm_compute|].
  split; [by vm_compute|].
  split; [eexists; by vm_compute|].
  split; [eexists; by vm_compute|].
  split.
  - intros n Hn.
    pose (ok := λ n : nat,
      match FIXED_TIME_SLOTS !! (n - 1)%nat, FIXED_TIME_SLOTS !! n with
      | Some a, Some b =>
          bool_decide (slotNumber a = Z.of_nat n ∧ slotNumber b = Z.of_nat n + 1 ∧
                       endTime a = startTime b)
      | _, _ => false
      end).
    assert (Hall : forallb ok (seq 1 47) = true) by (by vm_compute).
    rewrite forallb_forall in Hall. specialize (Hall n).
    unfold ok in Hall.
    destruct (FIXED_TIME_SLOTS !! (n - 1)%nat) as [a|], (FIXED_TIME_SLOTS !! n) as [b|];
      try (exfalso; by (discriminate Hall; apply in_seq; lia)).
    exists a, b. split; [done|]. split; [done|].
    eapply bool_decide_eq_true_1, Hall, in_seq. lia.
  - intros s Hs.
    pose (ok := λ s,
      match Spec.minutes_of_day (startTime s) with
      | Some m => bool_decide (Spec.minutes_of_day (endTime s) = Some (m + 15))
      | None => false
      end).
    assert (Hall : forallb ok FIXED_TIME_SLOTS = true) by (by vm_compute).
    rewrite forallb_forall in Hall. specialize (Hall s).
    unfold ok in Hall.
    destruct (Spec.minutes_of_day (startTime s)) as [m|].
    + exists m. split; [done|]. eapply bool_decide_eq_true_1, Hall, list_elem_of_In, Hs.
    + discriminate Hall. by apply list_elem_of_In.
Qed.

Lemma catalog_complete_contiguous_witness :
  generateTimeSlots 20 = Some FIXED_TIME_SLOTS ∧
  (∃ a b, FIXED_TIME_SLOTS !! 3%nat = Some a ∧ FIXED_TIME_SLOTS !! 4%nat = Some b ∧
          slotNumber a = 4 ∧ slotNumber b = 5 ∧ endTime a = startTime b) ∧
  (∃ m, Spec.minutes_of_day "09:45" = Some m ∧ Spec.minutes_of_day "10:00" = Some (m + 15)).
Proof.
  destruct catalog_complete_contiguous as (Hgen & _ & _ & _ & _ & Hadj & Hquarter).
  split; [apply (Hgen 20%nat); lia|].
  split; [apply (Hadj 4%nat); lia|].
  apply (Hquarter (mkTimeSlot 4 "09:45" "10:00")).
  apply list_elem_of_lookup. exists 3%nat. by vm_compute.
Defined.

Lemma find_Some {A} (P : A → Prop) `{∀ x, Decision (P x)} (l : list A) x :
  JS.find P l = Some x → x ∈ l ∧ P x.
Proof.
  unfold JS.find. destruct (list_find P l) as [[i y]|] eqn:Hf; [|done].
  intros [= <-]. apply list_find_Some in Hf as (Hi & HP & _).
  split; [by eapply list_elem_of_lookup_2|done].
Qed.

Lemma find_None {A} (P : A → Prop) `{∀ x, Decision (P x)} (l : list A) :
  JS.find P l = None ↔ ∀ x, x ∈ l → ¬ P x.
Proof.
  unfold JS.find. rewrite fmap_None, list_find_None, Forall_forall. done.
Qed.

Lemma find_is_Some {A} (P : A → Prop) `{∀ x, Decision (P x)} (l : list A) x :
  x ∈ l → P x → is_Some (JS.find P l).
Proof.
  intros Hx HP. unfold JS.find. apply fmap_is_Some. by eapply list_find_elem_of.
Qed.

Lemma catalog_numbers : slotNumber <$> FIXED_TIME_SLOTS = seqZ 1 48.
Proof. by vm_compute. Qed.

Lemma catalog_number_range s : s ∈ FIXED_TIME_SLOTS → 1 <= slotNumber s <= 48.
Proof.
  intros Hs. assert (Hn : slotNumber s ∈ slotNumber <$> FIXED_TIME_SLOTS)
    by (by apply list_elem_of_fmap_2).
  rewrite catalog_numbers, elem_of_seqZ in Hn. lia.
Qed.

Lemma catalog_number_inj s s' :
  s ∈ FIXED_TIME_SLOTS → s' ∈ FIXED_TIME_SLOTS → slotNumber s = slotNumber s' → s = s'.
Proof.
  intros Hs Hs' Heq.
  apply list_elem_of_lookup in Hs as [i Hi], Hs' as [j Hj].
  assert (i = j) as ->; [|congruence].
  eapply NoDup_lookup; [apply (NoDup_seqZ 1 48)|..]; rewrite <- catalog_numbers.
  - rewrite list_lookup_fmap, Hi. done.
  - rewrite list_lookup_fmap, Hj. simpl. by rewrite Heq.
Qed.

Lemma getSlotByNumber_in_range n :
  1 <= n <= 48 → ∃ s, getSlotByNumber n = Some s ∧ s ∈ FIXED_TIME_SLOTS ∧ slotNumber s = n.
Proof.
  intros Hn. assert (Hin : n ∈ slotNumber <$> FIXED_TIME_SLOTS).
  { rewrite catalog_numbers. apply elem_of_seqZ. lia. }
  apply list_elem_of_fmap in Hin as (s0 & -> & Hs0).
  destruct (find_is_Some (λ slot, slotNumber slot = slotNumber s0) FIXED_TIME_SLOTS s0)
    as [s Hs]; [done..|].
  exists s. split; [done|]. by apply find_Some in Hs.
Qed.

Lemma getSlotByNumber_out_of_range n :
  ¬ (1 <= n <= 48) → getSlotByNumber n = None.
Proof.
  intros Hn. apply find_None. intros s Hs <-. by apply Hn, catalog_number_range.
Qed.

(** C4. The six blocks partition the slot numbers 1..48; for a block
    index 0..5 [getSlotsForBlock] returns 8 slots, exactly the catalog
    slots within the block's inclusive bounds, in ascending order; for
    every other index (such as -1 and 6) it returns the empty array. *)
Theorem blocks_partition_catalog :
  length TIME_BLOCKS = 6%nat ∧
  (∀ n, 1 <= n <= 48 →
     ∃ i b, TIME_BLOCKS !! i = Some b ∧ in_block b n ∧
            ∀ j b', TIME_BLOCKS !! j = Some b' → in_block b' n → j = i) ∧
  (∀ b n, b ∈ TIME_BLOCKS → in_block b n → 1 <= n <= 48) ∧
  (∀ i, 0 <= i <= 5 →
     ∃ b l, TIME_BLOCKS !! Z.to_nat i = Some b ∧ getSlotsForBlock i = Some l ∧
            length l = 8%nat ∧
            slotNumber <$> l = seqZ (startSlot b) 8 ∧
            ∀ s, s ∈ l ↔ s ∈ FIXED_TIME_SLOTS ∧ startSlot b <= slotNumber s <= endSlot b) ∧
  (∀ i, i < 0 ∨ 5 < i → getSlotsForBlock i = Some []) ∧
  getSlotsForBlock (-1) = Some [] ∧
  getSlotsForBlock 6 = Some [].
Proof.
  split; [done|]. split; [|split; [|split; [|split; [|split]]]].
  - intros n Hn.
    assert (1 <= n <= 8 ∨ 9 <= n <= 16 ∨ 17 <= n <= 24 ∨
            25 <= n <= 32 ∨ 33 <= n <= 40 ∨ 41 <= n <= 48)
      as [?|[?|[?|[?|[?|?]]]]] by lia;
      [exists 0%nat|exists 1%nat|exists 2%nat|exists 3%nat|exists 4%nat|exists 5%nat];
      (eexists; split; [reflexivity|]; split; [unfold in_block; simpl; lia|];
       intros j b' Hj Hb';
       do 6 (destruct j as [|j]; [injection Hj as Heq; rewrite <- Heq in Hb'; unfold in_block in Hb'; simpl in Hb'; lia|]);
       discriminate Hj).
  - intros b n Hb Hin. unfold TIME_BLOCKS in Hb.
    repeat (apply elem_of_cons in Hb as [->|Hb]; [unfold in_block in Hin; simpl in Hin; lia|]).
    by apply elem_of_nil in Hb.
  - intros i Hi.
    assert (i = 0 ∨ i = 1 ∨ i = 2 ∨ i = 3 ∨ i = 4 ∨ i = 5)
      as [-> | [-> | [-> | [-> | [-> | ->]]]]] by lia;
      (eexists; eexists; split; [reflexivity|]; split; [reflexivity|];
       split; [by vm_compute|]; split; [by vm_compute|];
       intros s; rewrite list_elem_of_filter; unfold in_block; simpl; intuition lia).
  - intros i Hi. unfold getSlotsForBlock. rewrite decide_True; [done|].
    simpl. lia.
  - done.
  - done.
Qed.

Lemma blocks_partition_catalog_witness :
  ∃ i b, TIME_BLOCKS !! i = Some b ∧ in_block b 17 ∧
         ∀ j b', TIME_BLOCKS !! j = Some b' → in_block b' 17 → j = i.
Proof.
  destruct blocks_partition_catalog as (_ & Hcover & _).
  apply (Hcover 17). lia.
Defined.

(** C7. The lookups report absence by their result: [getSlotByNumber]
    returns the one catalog slot with the given number when it lies in
    1..48 and undefined otherwise; [getBlockForSlot] returns the block
    whose inclusive range contains the number when there is one and null
    otherwise. Both are total functions. *)
Theorem lookups_total_and_exact (n : Z) :
  (1 <= n <= 48 →
     ∃ s, getSlotByNumber n = Some s ∧ s ∈ FIXED_TIME_SLOTS ∧ slotNumber s = n ∧
          ∀ s', s' ∈ FIXED_TIME_SLOTS → slotNumber s' = n → s' = s) ∧
  (¬ (1 <= n <= 48) → getSlotByNumber n = None) ∧
  (∀ b, b ∈ TIME_BLOCKS → in_block b n → getBlockForSlot n = Some b) ∧
  ((∀ b, b ∈ TIME_BLOCKS → ¬ in_block b n) → getBlockForSlot n = None).
Proof.
  split; [|split; [|split]].
  - intros Hn. destruct (getSlotByNumber_in_range n Hn) as (s & Hs & Hin & Hnum).
    exists s. repeat split; [done..|].
    intros s' Hin' Hnum'. apply catalog_number_inj; [done..|congruence].
  - apply getSlotByNumber_out_of_range.
  - intros b Hb Hin. unfold TIME_BLOCKS in Hb.
    repeat (apply elem_of_cons in Hb as [->|Hb];
            [unfold in_block in Hin; simpl in Hin;
             unfold getBlockForSlot, JS.find, TIME_BLOCKS; simpl;
             repeat (rewrite decide_False by (unfold in_block; simpl; lia));
             rewrite decide_True by (unfold in_block; simpl; lia); done|]).
    by apply elem_of_nil in Hb.
  - intros Hno. by apply find_None.
Qed.

Lemma lookups_total_and_exact_witness :
  (∃ s, getSlotByNumber 48 = Some s ∧ s ∈ FIXED_TIME_SLOTS ∧ slotNumber s = 48 ∧
        ∀ s', s' ∈ FIXED_TIME_SLOTS → slotNumber s' = 48 → s' = s) ∧
  getSlotByNumber 49 = None ∧
  getBlockForSlot 0 = None.
Proof.
  split; [|split].
  - apply (lookups_total_and_exact 48). lia.
  - apply (lookups_total_and_exact 49). lia.
  - apply (lookups_total_and_exact 0). intros b Hb.
    unfold TIME_BLOCKS in Hb.
    repeat (apply elem_of_cons in Hb as [->|Hb]; [unfold in_block; simpl; lia|]).
    by apply elem_of_nil in Hb.
Defined.

(** C6. [formatTime12Hour] turns the 24-hour string of hour [h] and
    minute [m] into the 12-hour form: hour 0 shows as 12, hours 13..23
    lose 12, hours 1..12 show as they are, the minutes keep two digits,
    and the suffix is AM before noon and PM from noon on. *)
Theorem formatTime12Hour_policy (h m : Z) :
  0 <= h <= 23 → 0 <= m <= 59 →
  formatTime12Hour (Spec.clock h m) =
    Some (Spec.numeral (Spec.display_hour h) +:+ ":" +:+ Spec.two_digit m +:+ " " +:+
          Spec.period h) ∧
  formatTime12Hour "00:00" = Some "12:00 AM" ∧
  formatTime12Hour "09:00" = Some "9:00 AM" ∧
  formatTime12Hour "12:00" = Some "12:00 PM" ∧
  formatTime12Hour "13:15" = Some "1:15 PM" ∧
  formatTime12Hour "23:45" = Some "11:45 PM".
Proof.
  intros Hh Hm. split; [|by vm_compute].
  pose (ok := λ h m : Z, bool_decide (formatTime12Hour (Spec.clock h m) =
    Some (Spec.numeral (Spec.display_hour h) +:+ ":" +:+ Spec.two_digit m +:+ " " +:+
          Spec.period h))).
  assert (Hall : forallb (λ h, forallb (ok h) (seqZ 0 60)) (seqZ 0 24) = true)
    by (by vm_compute).
  rewrite forallb_forall in Hall.
  specialize (Hall h). rewrite forallb_forall in Hall.
  eapply bool_decide_eq_true_1, Hall; apply list_elem_of_In, elem_of_seqZ; lia.
Qed.

Lemma formatTime12Hour_policy_witness :
  formatTime12Hour (Spec.clock 0 5) = Some "12:05 AM" ∧
  formatTime12Hour (Spec.clock 12 30) = Some "12:30 PM" ∧
  formatTime12Hour (Spec.clock 17 0) = Some "5:00 PM".
Proof.
  split; [|split].
  - apply (formatTime12Hour_policy 0 5); lia.
  - apply (formatTime12Hour_policy 12 30); lia.
  - apply (formatTime12Hour_policy 17 0); lia.
Defined.

End Catalog.

(** ** Stable sorting by an integer key *)

Section SortByKey.
Context {A : Type} (key : A → Z).

Let cmp : A → A → Z := λ a b, key a - key b.
Let le : A → A → Prop := λ a b, key a <= key b.

Lemma sort_insert_perm x l : JS.sort_insert cmp x l ≡ₚ x :: l.
Proof.
  induction l as [|y l IH]; simpl; [done|].
  destruct (decide (cmp x y <= 0)); [done|].
  rewrite IH. apply Permutation_swap.
Qed.

Lemma sort_perm l : JS.sort cmp l ≡ₚ l.
Proof.
  induction l as [|x l IH]; simpl; [done|].
  fold (JS.sort cmp l). by rewrite sort_insert_perm, IH.
Qed.

Lemma sort_insert_head x l :
  Forall (le x) l → JS.sort_insert cmp x l = x :: l.
Proof.
  destruct 1 as [|y l Hy _]; simpl; [done|].
  rewrite decide_True; [done|]. unfold cmp, le in *. lia.
Qed.

Lemma sort_insert_sorted x l :
  StronglySorted le l → StronglySorted le (JS.sort_insert cmp x l).
Proof.
  induction 1 as [|y l Hl IH Hy]; simpl.
  - repeat constructor.
  - destruct (decide (cmp x y <= 0)) as [Hxy|Hxy].
    + constructor; [by constructor|].
      constructor; [unfold cmp, le in *; lia|].
      eapply Forall_impl; [exact Hy|]. unfold cmp, le in *. intros; simpl in *; lia.
    + constructor; [done|].
      rewrite sort_insert_perm. constructor; [|done].
      unfold cmp, le in *. lia.
Qed.

Lemma sort_sorted l : StronglySorted le (JS.sort cmp l).
Proof.
  induction l as [|x l IH]; simpl; [constructor|].
  by apply sort_insert_sorted.
Qed.

Lemma sort_id l : StronglySorted le l → JS.sort cmp l = l.
Proof.
  induction 1 as [|x l Hl IH Hx]; simpl; [done|].
  fold (JS.sort cmp l). rewrite IH. by apply sort_insert_head.
Qed.

Lemma filter_sort_insert (P : A → Prop) `{∀ x, Decision (P x)} x l :
  StronglySorted le l →
  filter P (JS.sort_insert cmp x l) =
    if decide (P x) then JS.sort_insert cmp x (filter P l) else filter P l.
Proof.
  induction 1 as [|y l Hl IH Hy]; simpl.
  - rewrite filter_cons, filter_nil. by destruct (decide (P x)).
  - destruct (decide (cmp x y <= 0)) as [Hxy|Hxy].
    + rewrite (filter_cons P x). destruct (decide (P x)) as [HPx|HPx]; [|done].
      rewrite sort_insert_head; [done|].
      apply Forall_forall. intros z [_ Hz]%list_elem_of_filter.
      apply elem_of_cons in Hz as [->|Hz]; [unfold cmp, le in *; lia|].
      rewrite Forall_forall in Hy. specialize (Hy z Hz).
      unfold cmp, le in *. lia.
    + rewrite (filter_cons P y), IH, (filter_cons P y).
      destruct (decide (P y)), (decide (P x)); simpl; try done.
      by rewrite decide_False.
Qed.

Lemma filter_sort (P : A → Prop) `{∀ x, Decision (P x)} l :
  filter P (JS.sort cmp l) = JS.sort cmp (filter P l).
Proof.
  induction l as [|x l IH]; [done|].
  simpl. fold (JS.sort cmp l).
  rewrite filter_sort_insert by apply sort_sorted.
  rewrite filter_cons, IH. by destruct (decide (P x)).
Qed.

Lemma fmap_sort_insert x l :
  key <$> JS.sort_insert cmp x l = JS.sort_insert (λ a b, a - b) (key x) (key <$> l).
Proof.
  induction l as [|y l IH]; simpl; [done|].
  destruct (decide (cmp x y <= 0)) as [Hxy|Hxy]; unfold cmp in Hxy.
  - by rewrite decide_True.
  - rewrite decide_False by done. simpl. f_equal. exact IH.
Qed.

Lemma fmap_sort l :
  key <$> JS.sort cmp l = JS.sort (λ a b, a - b) (key <$> l).
Proof.
  induction l as [|x l IH]; simpl; [done|].
  fold (JS.sort cmp l). rewrite fmap_sort_insert. f_equal. exact IH.
Qed.
End SortByKey.

(** ** The weekly schedule *)

Section ScheduleInit.
Import Types DoctorProfile.

Lemma find_cons {A} (P : A → Prop) `{∀ x, Decision (P x)} x (l : list A) :
  JS.find P (x :: l) = if decide (P x) then Some x else JS.find P l.
Proof.
  unfold JS.find. simpl. destruct (decide (P x)); [done|].
  by destruct (list_find P l) as [[i y]|].
Qed.

Lemma find_unique {A} (P : A → Prop) `{∀ x, Decision (P x)} (l : list A) x :
  x ∈ l → P x → (∀ y, y ∈ l → P y → y = x) → JS.find P l = Some x.
Proof.
  intros Hx HP Huniq. destruct (find_is_Some P l x Hx HP) as [y Hy].
  rewrite Hy. f_equal. apply find_Some in Hy as [Hin HPy]. by apply Huniq.
Qed.

Lemma initializeDay_day s d : day (initializeDay s d) = d.
Proof. unfold initializeDay. by destruct (JS.find _ s). Qed.

Lemma find_initializeSchedule s d :
  JS.find (λ x, day x = d) (initializeSchedule s) = Some (initializeDay s d).
Proof.
  unfold initializeSchedule, days. cbn [fmap list_fmap].
  rewrite !find_cons, !initializeDay_day. by destruct d.
Qed.

Lemma normalizeSlot_idem x : normalizeSlot (normalizeSlot x) = normalizeSlot x.
Proof. done. Qed.

Lemma initializeDay_idem s d :
  initializeDay (initializeSchedule s) d = initializeDay s d.
Proof.
  unfold initializeDay at 1. rewrite find_initializeSchedule.
  unfold initializeDay. destruct (JS.find _ s) as [e|]; simpl; [|done].
  f_equal. rewrite <- list_fmap_compose. by apply list_fmap_ext.
Qed.

(** C5. Whatever collection it is given, [initializeSchedule] returns
    seven entries, one per weekday in the order Monday..Sunday. The entry
    of a weekday the input has an entry for carries that entry's slots,
    all of them and in order, each with its number and times and with
    [isAvailable] kept when present and set to true when undefined; the
    entry of a weekday the input lacks has no slots. *)
Theorem initializeSchedule_week (s : list Schedule) :
  length (initializeSchedule s) = 7%nat ∧
  day <$> initializeSchedule s = days ∧
  ∀ d, ∃ r, r ∈ initializeSchedule s ∧ day r = d ∧
    (∀ e, JS.find (λ x, day x = d) s = Some e →
       length (slots r) = length (slots e) ∧
       ∀ i x, slots e !! i = Some x →
         ∃ y, slots r !! i = Some y ∧
              slotNumber y = slotNumber x ∧ startTime y = startTime x ∧
              endTime y = endTime x ∧
              isAvailable y = Some (match isAvailable x with Some b => b | None => true end)) ∧
    ((∀ e, e ∈ s → day e ≠ d) → slots r = []) ∧
    (∀ e, e ∈ s → day e = d → is_Some (JS.find (λ x, day x = d) s)) ∧
    (∀ e, e ∈ s → day e = d → (∀ e', e' ∈ s → day e' = d → e' = e) →
       JS.find (λ x, day x = d) s = Some e).
Proof.
  split; [done|]. split.
  { unfold initializeSchedule. rewrite <- list_fmap_compose.
    unfold days. cbn [fmap list_fmap compose]. by rewrite !initializeDay_day. }
  intros d. exists (initializeDay s d).
  split; [|split; [apply initializeDay_day|split; [|split; [|split]]]].
  - apply (find_Some (λ x, day x = d)). apply find_initializeSchedule.
  - intros e He. unfold initializeDay. rewrite He. simpl.
    split; [by rewrite length_fmap|].
    intros i x Hx. exists (normalizeSlot x).
    rewrite list_lookup_fmap, Hx. by repeat split.
  - intros Hno. unfold initializeDay.
    destruct (JS.find _ s) as [e|] eqn:He; [|done].
    apply find_Some in He as [Hin Hd]. by destruct (Hno e Hin).
  - intros e Hin Hd. by apply (find_is_Some (λ x, day x = d) s e).
  - intros e Hin Hd Huniq. by apply find_unique.
Qed.

Lemma initializeSchedule_week_witness :
  let monday := {| day := Monday;
                   slots := [mkSlot 5 "10:00" "10:15" None;
                             mkSlot 3 "09:30" "09:45" (Some false)] |} in
  ∃ r, r ∈ initializeSchedule [monday] ∧ day r = Monday ∧
       slots r = [mkSlot 5 "10:00" "10:15" (Some true);
                  mkSlot 3 "09:30" "09:45" (Some false)].
Proof.
  intros monday.
  destruct (initializeSchedule_week [monday]) as (_ & _ & Hday).
  destruct (Hday Monday) as (r & Hin & Hd & Hcarry & _).
  exists r. split; [done|]. split; [done|].
  destruct (Hcarry monday eq_refl) as [Hlen Hslots].
  destruct (Hslots 0%nat _ eq_refl) as (y0 & Hy0 & H01 & H02 & H03 & H04).
  destruct (Hslots 1%nat _ eq_refl) as (y1 & Hy1 & H11 & H12 & H13 & H14).
  destruct (slots r) as [|z0 [|z1 [|z2 l]]]; try discriminate Hlen.
  injection Hy0 as ->. injection Hy1 as ->.
  destruct y0, y1; simpl in *; by subst.
Defined.

(** C9. [initializeSchedule] is idempotent; on the empty input it gives
    seven days without slots, and initializing that again gives the same
    seven days. *)
Theorem initializeSchedule_idempotent :
  (∀ s, initializeSchedule (initializeSchedule s) = initializeSchedule s) ∧
  initializeSchedule [] =
    [ mkSchedule Monday []; mkSchedule Tuesday []; mkSchedule Wednesday [];
      mkSchedule Thursday []; mkSchedule Friday []; mkSchedule Saturday [];
      mkSchedule Sunday [] ] ∧
  initializeSchedule (initializeSchedule []) = initializeSchedule [].
Proof.
  assert (Hidem : ∀ s, initializeSchedule (initializeSchedule s) = initializeSchedule s).
  { intros s. unfold initializeSchedule at 1 3.
    apply list_fmap_ext. intros _ d _. apply initializeDay_idem. }
  split; [done|]. split; [done|]. apply Hidem.
Qed.

End ScheduleInit.

(** ** Filtering a list updated at one index *)

Section FilterInsert.
Context {A : Type}.
Implicit Types (l : list A).

Lemma fmap_filter_insert {B} (f : A → B) (Q : A → Prop) `{∀ x, Decision (Q x)}
    l i x y :
  l !! i = Some x → (Q x ↔ Q y) → f x = f y →
  f <$> filter Q (<[i:=y]> l) = f <$> filter Q l.
Proof.
  revert i. induction l as [|a l IH]; intros [|i] Hi HQ Hf; try discriminate.
  - injection Hi as ->. simpl. rewrite !filter_cons.
    destruct (decide (Q y)), (decide (Q x)); simpl; try tauto; congruence.
  - change (<[S i:=y]> (a :: l)) with (a :: <[i:=y]> l).
    rewrite !filter_cons.
    destruct (decide (Q a)); rewrite ?fmap_cons; by rewrite (IH i).
Qed.

Lemma filter_insert_False (Q : A → Prop) `{∀ x, Decision (Q x)} l i y :
  ¬ Q y → filter Q (<[i:=y]> l) = filter Q (take i l ++ drop (S i) l).
Proof.
  intros Hy. revert i. induction l as [|a l IH]; intros [|i]; try done.
  - change (<[0%nat:=y]> (a :: l)) with (y :: l). by rewrite filter_cons_False.
  - change (<[S i:=y]> (a :: l)) with (a :: <[i:=y]> l).
    change (take (S i) (a :: l) ++ drop (S (S i)) (a :: l))
      with (a :: (take i l ++ drop (S i) l)).
    by rewrite !filter_cons, IH.
Qed.

Lemma filter_none (P : A → Prop) `{∀ x, Decision (P x)} l :
  (∀ x, x ∈ l → ¬ P x) → filter P l = [].
Proof.
  induction l as [|a l IH]; intros Hl; [done|].
  rewrite filter_cons_False by (apply Hl; left).
  apply IH. intros x Hx. apply Hl. by right.
Qed.

Lemma filter_all (P : A → Prop) `{∀ x, Decision (P x)} l :
  (∀ x, x ∈ l → P x) → filter P l = l.
Proof.
  induction l as [|a l IH]; intros Hl; [done|].
  rewrite filter_cons_True by (apply Hl; left).
  f_equal. apply IH. intros x Hx. apply Hl. by right.
Qed.

Lemma filter_nil_inv (P : A → Prop) `{∀ x, Decision (P x)} l :
  filter P l = [] → ∀ x, x ∈ l → ¬ P x.
Proof. intros Hnil x Hx HP. by eapply filter_nil_not_elem_of. Qed.

(** Removing the only element that satisfies [P]. *)
Lemma filter_not_unique (P : A → Prop) `{∀ x, Decision (P x)} l i x :
  l !! i = Some x → P x → length (filter P l) = 1%nat →
  filter (λ z, ¬ P z) l = take i l ++ drop (S i) l.
Proof.
  revert i. induction l as [|a l IH]; intros [|i] Hi HP Hlen; try discriminate.
  - injection Hi as ->. simpl.
    rewrite filter_cons_True in Hlen by done. simpl in Hlen.
    rewrite filter_cons_False by tauto.
    rewrite drop_0.
    apply filter_all. apply (filter_nil_inv P).
    apply nil_length_inv. lia.
  - simpl in Hi. rewrite filter_cons in Hlen.
    destruct (decide (P a)) as [Ha|Ha].
    + exfalso. simpl in Hlen.
      assert (Hnil : filter P l = []) by (apply nil_length_inv; lia).
      eapply (filter_nil_inv P l Hnil x); [by eapply list_elem_of_lookup_2|done].
    + rewrite filter_cons_True by done. simpl. f_equal. by apply IH.
Qed.
End FilterInsert.

Section ScheduleToggle.
Import Types DoctorProfile.

Implicit Types (fd : DoctorFormData) (sd : Schedule) (d : Day) (n : Z).

Lemma getSlotByNumber_eq n :
  TimeSlots.getSlotByNumber n =
  JS.find (λ s, TimeSlots.slotNumber s = n) TimeSlots.FIXED_TIME_SLOTS.
Proof. unfold TimeSlots.getSlotByNumber. reflexivity. Qed.

Lemma toggleDay_other d n sd : day sd ≠ d → toggleDay d n sd = sd.
Proof. intros Hd. unfold toggleDay. by rewrite decide_False. Qed.

Lemma toggleDay_day d n sd : day (toggleDay d n sd) = day sd.
Proof.
  unfold toggleDay. destruct (decide _); [|done].
  destruct (list_find _ _) as [[i x]|]; [done|].
  by destruct (JS.find _ _).
Qed.

Lemma toggleDay_present d n sd j x :
  day sd = d →
  list_find (λ s, slotNumber s = n) (slots sd) = Some (j, x) →
  toggleDay d n sd = {| day := d; slots := <[j := toggledSlot x]> (slots sd) |}.
Proof. intros Hd Hf. unfold toggleDay. by rewrite decide_True, Hf, Hd. Qed.

Lemma toggleDay_insert d n sd c :
  day sd = d →
  list_find (λ s, slotNumber s = n) (slots sd) = None →
  TimeSlots.getSlotByNumber n = Some c →
  toggleDay d n sd =
    {| day := d; slots := JS.sort bySlotNumber (slots sd ++ [openedSlot c]) |}.
Proof.
  intros Hd Hf Hc. unfold toggleDay. rewrite decide_True, Hf by done.
  rewrite getSlotByNumber_eq in Hc. by rewrite Hc, Hd.
Qed.

Lemma toggleDay_unknown d n sd :
  list_find (λ s, slotNumber s = n) (slots sd) = None →
  TimeSlots.getSlotByNumber n = None →
  toggleDay d n sd = sd.
Proof.
  intros Hf Hc. unfold toggleDay. destruct (decide _); [|done].
  rewrite getSlotByNumber_eq in Hc. by rewrite Hf, Hc.
Qed.

Lemma getSlotByNumber_Some_iff n c :
  TimeSlots.getSlotByNumber n = Some c ↔
  c ∈ TimeSlots.FIXED_TIME_SLOTS ∧ TimeSlots.slotNumber c = n.
Proof.
  split.
  - rewrite getSlotByNumber_eq. intros Hc. by apply find_Some in Hc.
  - rewrite getSlotByNumber_eq. intros [Hin Hn]. apply find_unique; [done..|].
    intros c' Hin' Hn'. apply catalog_number_inj; [done..|congruence].
Qed.

Lemma getSlotByNumber_None_iff n :
  TimeSlots.getSlotByNumber n = None ↔
  ∀ c, c ∈ TimeSlots.FIXED_TIME_SLOTS → TimeSlots.slotNumber c ≠ n.
Proof. rewrite getSlotByNumber_eq. apply find_None. Qed.

(** C8. [toggleSlotAvailability] touches at most the entries of the given
    weekday: the schedule keeps its length and the day of every entry,
    every entry of another weekday is returned as it was, and the other
    fields of the form are kept. *)
Theorem toggle_frame fd d n :
  ∃ fd', toggleSlotAvailability (Some fd) d n = Some fd' ∧
    length (schedule fd') = length (schedule fd) ∧
    (∀ i sd, schedule fd !! i = Some sd → day sd ≠ d → schedule fd' !! i = Some sd) ∧
    (∀ i sd, schedule fd !! i = Some sd →
       ∃ sd', schedule fd' !! i = Some sd' ∧ day sd' = day sd) ∧
    (name fd', email fd', avatar fd', specialization fd', experience fd',
     qualification fd', about fd', contactNumber fd') =
    (name fd, email fd, avatar fd, specialization fd, experience fd,
     qualification fd, about fd, contactNumber fd).
Proof.
  eexists. split; [reflexivity|]. simpl. unfold updatedSchedule.
  split; [by rewrite length_fmap|]. split; [|split; [|done]].
  - intros i sd Hi Hd. rewrite list_lookup_fmap, Hi. simpl. by rewrite toggleDay_other.
  - intros i sd Hi. exists (toggleDay d n sd).
    rewrite list_lookup_fmap, Hi. by rewrite toggleDay_day.
Qed.

Lemma toggle_frame_witness :
  let week := initializeSchedule [] in
  ∃ fd', toggleSlotAvailability (Some (Spec.form0 week)) Wednesday 7 = Some fd' ∧
         schedule fd' !! 0%nat = Some (mkSchedule Monday []) ∧
         schedule fd' !! 6%nat = Some (mkSchedule Sunday []).
Proof.
  intros week.
  destruct (toggle_frame (Spec.form0 week) Wednesday 7) as (fd' & Hrun & _ & Hother & _).
  exists fd'. split; [exact Hrun|]. split.
  - apply (Hother 0%nat); [reflexivity|discriminate].
  - apply (Hother 6%nat); [reflexivity|discriminate].
Defined.

(** C3. The schedule [handleSubmit] sends keeps, for every day and in
    the original order, exactly the slots whose [isAvailable] is true,
    and leaves out every day that has no such slot; so it holds neither
    an unavailable slot nor a day without slots. *)
Theorem cleanedSchedule_exact (s : list Schedule) :
  cleanedSchedule s =
    omap (λ sd,
            let kept := filter (λ x, isAvailable x = Some true) (slots sd) in
            if decide (kept = []) then None
            else Some {| day := day sd; slots := kept |}) s ∧
  Forall (λ sd, slots sd ≠ [] ∧ Forall (λ x, isAvailable x = Some true) (slots sd))
         (cleanedSchedule s) ∧
  cleanedSchedule
    [ mkSchedule Monday [mkSlot 5 "10:00" "10:15" (Some true);
                         mkSlot 6 "10:15" "10:30" (Some false)];
      mkSchedule Tuesday [mkSlot 1 "09:00" "09:15" (Some false);
                          mkSlot 2 "09:15" "09:30" (Some false)] ] =
    [ mkSchedule Monday [mkSlot 5 "10:00" "10:15" (Some true)] ].
Proof.
  assert (Hfilter : ∀ l : list Slot,
    filter (λ slot, JS.truthy (isAvailable slot)) l =
    filter (λ x, isAvailable x = Some true) l).
  { intros l. apply list_filter_iff. intros x.
    destruct (isAvailable x) as [[]|]; simpl; naive_solver. }
  assert (Heq : cleanedSchedule s =
    omap (λ sd,
            let kept := filter (λ x, isAvailable x = Some true) (slots sd) in
            if decide (kept = []) then None
            else Some {| day := day sd; slots := kept |}) s).
  { unfold cleanedSchedule. induction s as [|sd s IH]; [done|].
    cbn [fmap list_fmap omap list_omap]. rewrite filter_cons. simpl.
    rewrite Hfilter.
    destruct (filter (λ x, isAvailable x = Some true) (slots sd)) as [|x l] eqn:Hk; simpl.
    - exact IH.
    - f_equal. exact IH. }
  split; [exact Heq|]. split; [|done].
  rewrite Heq. apply Forall_forall. intros r Hr.
  apply list_elem_of_omap in Hr as (sd & Hsd & Hr). simpl in Hr.
  destruct (decide _) as [|Hne]; [done|]. injection Hr as <-. simpl.
  split; [done|]. apply Forall_forall. by intros x [? _]%list_elem_of_filter.
Qed.

Lemma fmap_fixed {A} (f : A → A) (l : list A) :
  (∀ x, x ∈ l → f x = x) → f <$> l = l.
Proof.
  intros Hf. rewrite <- (list_fmap_id l) at 2.
  apply list_fmap_ext. intros i x Hx. apply Hf. by eapply list_elem_of_lookup_2.
Qed.

Lemma absent_list_find n (l : list Slot) :
  (∀ x, x ∈ l → slotNumber x ≠ n) ↔ list_find (λ s, slotNumber s = n) l = None.
Proof. by rewrite list_find_None, Forall_forall. Qed.

(** C2. The three cases of [toggleSlotAvailability] on an entry of the
    given weekday. A slot with the number already in the day's set (the
    first such slot) has its [isAvailable] flipped and stays where it is.
    A number that is not in the day's set but in the catalog adds the
    catalog slot with [isAvailable] true, and the day's set comes out
    sorted ascending by slot number. A number in neither leaves the entry
    as it is, and when that holds for every entry of the weekday the
    whole form state is returned unchanged. *)
Theorem toggle_cases fd d n :
  ∃ fd', toggleSlotAvailability (Some fd) d n = Some fd' ∧
    length (schedule fd') = length (schedule fd) ∧
    (∀ i sd, schedule fd !! i = Some sd → day sd = d →
       ∃ sd', schedule fd' !! i = Some sd' ∧ day sd' = d ∧
         (∀ j x, slots sd !! j = Some x → slotNumber x = n →
                 (∀ k y, slots sd !! k = Some y → (k < j)%nat → slotNumber y ≠ n) →
            slots sd' =
              <[j := {| slotNumber := slotNumber x; startTime := startTime x;
                        endTime := endTime x;
                        isAvailable := Some (negb (JS.truthy (isAvailable x))) |}]>
                (slots sd) ∧
            length (slots sd') = length (slots sd)) ∧
         ((∀ x, x ∈ slots sd → slotNumber x ≠ n) →
          ∀ c, c ∈ TimeSlots.FIXED_TIME_SLOTS → TimeSlots.slotNumber c = n →
            let added := {| slotNumber := n; startTime := TimeSlots.startTime c;
                            endTime := TimeSlots.endTime c; isAvailable := Some true |} in
            slots sd' ≡ₚ slots sd ++ [added] ∧
            StronglySorted (λ a b, slotNumber a <= slotNumber b) (slots sd') ∧
            slots sd' = JS.sort bySlotNumber (slots sd ++ [added])) ∧
         ((∀ x, x ∈ slots sd → slotNumber x ≠ n) →
          (∀ c, c ∈ TimeSlots.FIXED_TIME_SLOTS → TimeSlots.slotNumber c ≠ n) →
            sd' = sd)) ∧
    ((∀ sd x, sd ∈ schedule fd → day sd = d → x ∈ slots sd → slotNumber x ≠ n) →
     (∀ c, c ∈ TimeSlots.FIXED_TIME_SLOTS → TimeSlots.slotNumber c ≠ n) →
       fd' = fd).
Proof.
  eexists. split; [reflexivity|]. simpl. unfold updatedSchedule.
  split; [by rewrite length_fmap|]. split.
  - intros i sd Hi Hd. exists (toggleDay d n sd).
    rewrite list_lookup_fmap, Hi. split; [done|].
    split; [by rewrite toggleDay_day|]. split; [|split].
    + intros j x Hj Hx Hfirst.
      assert (Hf : list_find (λ s, slotNumber s = n) (slots sd) = Some (j, x)).
      { apply list_find_Some. split; [done|]. split; [done|].
        intros k y Hk Hlt. by apply (Hfirst k y). }
      rewrite (toggleDay_present d n sd j x Hd Hf). simpl.
      split; [done|]. by rewrite length_insert.
    + intros Habsent c Hc Hcn.
      assert (Hget : TimeSlots.getSlotByNumber n = Some c)
        by (by apply getSlotByNumber_Some_iff).
      apply absent_list_find in Habsent.
      rewrite (toggleDay_insert d n sd c Hd Habsent Hget). simpl.
      unfold openedSlot. rewrite Hcn. split; [apply (sort_perm slotNumber)|].
      split; [apply (sort_sorted slotNumber)|done].
    + intros Habsent Hnone. apply toggleDay_unknown.
      * by apply absent_list_find.
      * by apply getSlotByNumber_None_iff.
  - intros Habsent Hnone. destruct fd as [? ? ? ? ? ? ? ? week]. simpl in *. f_equal.
    apply fmap_fixed. intros sd Hsd.
    destruct (decide (day sd = d)) as [Hd|Hd]; [|by apply toggleDay_other].
    apply toggleDay_unknown.
    + apply absent_list_find. intros x Hx. by apply (Habsent sd x).
    + by apply getSlotByNumber_None_iff.
Qed.

Lemma toggle_cases_witness :
  let monday := mkSchedule Monday [mkSlot 5 "10:00" "10:15" (Some true)] in
  ∃ fd', toggleSlotAvailability (Some (Spec.form0 [monday])) Monday 999 = Some fd' ∧
         fd' = Spec.form0 [monday].
Proof.
  intros monday.
  destruct (toggle_cases (Spec.form0 [monday]) Monday 999) as (fd' & Hrun & _ & _ & Hsame).
  exists fd'. split; [exact Hrun|]. apply Hsame.
  - intros sd x Hsd _ Hx.
    apply list_elem_of_singleton in Hsd. subst sd.
    apply list_elem_of_singleton in Hx. by subst x.
  - intros c Hc Hn. apply catalog_number_range in Hc. lia.
Defined.

Lemma find_toggleDay d n d' (l : list Schedule) :
  JS.find (λ x, day x = d') (toggleDay d n <$> l) =
  toggleDay d n <$> JS.find (λ x, day x = d') l.
Proof.
  induction l as [|sd l IH]; [done|].
  rewrite fmap_cons, !find_cons, toggleDay_day.
  by destruct (decide (day sd = d')).
Qed.

Lemma getSelected_twice fd d n d' :
  getSelectedSlotsForDay
    (toggleSlotAvailability (toggleSlotAvailability (Some fd) d n) d n) d' =
  match JS.find (λ x, day x = d') (schedule fd) with
  | Some sd => Spec.selectedOf (toggleDay d n (toggleDay d n sd))
  | None => []
  end.
Proof.
  simpl. unfold updatedSchedule. rewrite !find_toggleDay.
  by destruct (JS.find _ (schedule fd)).
Qed.

Lemma twice_present d n sd j x :
  day sd = d →
  list_find (λ s, slotNumber s = n) (slots sd) = Some (j, x) →
  Spec.selectedOf (toggleDay d n (toggleDay d n sd)) = Spec.selectedOf sd.
Proof.
  intros Hd Hf. rewrite (toggleDay_present d n sd j x Hd Hf).
  pose proof Hf as (Hj & Hx & Hfirst)%list_find_Some.
  assert (Hlt : (j < length (slots sd))%nat) by (by eapply lookup_lt_Some).
  assert (Hf' : list_find (λ s, slotNumber s = n) (<[j := toggledSlot x]> (slots sd))
                = Some (j, toggledSlot x)).
  { apply list_find_Some. split; [by apply list_lookup_insert_eq|].
    split; [done|]. intros k y Hk Hkj.
    rewrite list_lookup_insert_ne in Hk by lia. by eapply Hfirst. }
  rewrite (toggleDay_present d n (mkSchedule d (<[j := toggledSlot x]> (slots sd)))
             j (toggledSlot x) eq_refl Hf').
  unfold Spec.selectedOf. cbn [slots]. rewrite list_insert_insert_eq.
  apply fmap_filter_insert with (x := x); [done| |done].
  simpl. by destruct (isAvailable x) as [[]|].
Qed.

Lemma twice_absent d n sd c :
  day sd = d →
  list_find (λ s, slotNumber s = n) (slots sd) = None →
  TimeSlots.getSlotByNumber n = Some c →
  Spec.selectedOf (toggleDay d n (toggleDay d n sd)) =
    JS.sort (λ a b, a - b) (Spec.selectedOf sd) ∧
  toggledSlot (openedSlot c) ∈ slots (toggleDay d n (toggleDay d n sd)).
Proof.
  intros Hd Hnone Hc. rewrite (toggleDay_insert d n sd c Hd Hnone Hc).
  assert (Hcn : slotNumber (openedSlot c) = n).
  { apply getSlotByNumber_Some_iff in Hc. by destruct Hc. }
  pose proof (proj2 (absent_list_find n (slots sd)) Hnone) as Habsent.
  clear Hnone.
  set (added := openedSlot c) in *.
  set (sorted := JS.sort bySlotNumber (slots sd ++ [added])).
  assert (Honly : filter (λ s, slotNumber s = n) sorted = [added]).
  { unfold sorted, bySlotNumber. rewrite (filter_sort slotNumber), filter_app.
    rewrite filter_none by done. by rewrite filter_cons_True. }
  assert (Hrest : filter (λ s, ¬ slotNumber s = n) sorted =
                  JS.sort bySlotNumber (slots sd)).
  { unfold sorted, bySlotNumber. rewrite (filter_sort slotNumber), filter_app.
    rewrite filter_all by done. rewrite filter_cons_False by tauto.
    by rewrite filter_nil, app_nil_r. }
  destruct (list_find (λ s, slotNumber s = n) sorted) as [[j y]|] eqn:Hf.
  2:{ exfalso. apply list_find_None in Hf. rewrite Forall_forall in Hf.
      apply (Hf added); [|done].
      unfold sorted, bySlotNumber. rewrite (sort_perm slotNumber).
      apply elem_of_app. right. by left. }
  pose proof Hf as (Hj & Hy & _)%list_find_Some.
  assert (y = added) as ->.
  { assert (Hin : y ∈ filter (λ s, slotNumber s = n) sorted).
    { apply list_elem_of_filter. split; [done|]. by eapply list_elem_of_lookup_2. }
    rewrite Honly in Hin. by apply list_elem_of_singleton in Hin. }
  rewrite (toggleDay_present d n (mkSchedule d sorted) j added eq_refl Hf).
  unfold Spec.selectedOf. cbn [slots]. split.
  - rewrite filter_insert_False by (simpl; tauto).
    rewrite <- (filter_not_unique (λ s, slotNumber s = n) sorted j added Hj Hcn)
      by (by rewrite Honly).
    rewrite Hrest. unfold bySlotNumber.
    by rewrite (filter_sort slotNumber), (fmap_sort slotNumber).
  - eapply list_elem_of_lookup_2. apply list_lookup_insert_eq.
    by eapply lookup_lt_Some.
Qed.

(** C10, as the code has it. Toggling the same weekday and slot number
    twice leaves the selected slot numbers of every other weekday as
    they were, and those of the toggled weekday too when the number was
    already in the day's set or is not in the catalog. When the number
    was absent from the day's set and is in the catalog, the slot stays
    in the set with [isAvailable] false, and the toggled weekday's
    selected numbers come back sorted ascending: the same numbers, and
    the same sequence exactly when they were ascending before. *)
Theorem double_toggle_selected fd d n :
  let st := Some fd in
  let st2 := toggleSlotAvailability (toggleSlotAvailability st d n) d n in
  (∀ d', d' ≠ d → getSelectedSlotsForDay st2 d' = getSelectedSlotsForDay st d') ∧
  (JS.find (λ x, day x = d) (schedule fd) = None →
     getSelectedSlotsForDay st2 d = getSelectedSlotsForDay st d) ∧
  (∀ sd, JS.find (λ x, day x = d) (schedule fd) = Some sd →
     ((∃ x, x ∈ slots sd ∧ slotNumber x = n) →
        getSelectedSlotsForDay st2 d = getSelectedSlotsForDay st d) ∧
     ((∀ x, x ∈ slots sd → slotNumber x ≠ n) →
      (∀ c, c ∈ TimeSlots.FIXED_TIME_SLOTS → TimeSlots.slotNumber c ≠ n) →
        getSelectedSlotsForDay st2 d = getSelectedSlotsForDay st d) ∧
     ((∀ x, x ∈ slots sd → slotNumber x ≠ n) →
      ∀ c, c ∈ TimeSlots.FIXED_TIME_SLOTS → TimeSlots.slotNumber c = n →
        getSelectedSlotsForDay st2 d = JS.sort (λ a b, a - b) (getSelectedSlotsForDay st d) ∧
        getSelectedSlotsForDay st2 d ≡ₚ getSelectedSlotsForDay st d ∧
        StronglySorted Z.le (getSelectedSlotsForDay st2 d) ∧
        (getSelectedSlotsForDay st2 d = getSelectedSlotsForDay st d ↔
         StronglySorted Z.le (getSelectedSlotsForDay st d)) ∧
        ∃ fd2 sd2, st2 = Some fd2 ∧
          JS.find (λ x, day x = d) (schedule fd2) = Some sd2 ∧
          {| slotNumber := n; startTime := TimeSlots.startTime c;
             endTime := TimeSlots.endTime c; isAvailable := Some false |} ∈ slots sd2)).
Proof.
  intros st st2. unfold st2, st.
  split; [|split].
  - intros d' Hd'. rewrite getSelected_twice. simpl.
    destruct (JS.find _ (schedule fd)) as [sd|] eqn:Hsd; [|done].
    apply find_Some in Hsd as [_ Hday].
    by rewrite !(toggleDay_other d n sd) by congruence.
  - intros Hnone. rewrite getSelected_twice. simpl. by rewrite Hnone.
  - intros sd Hsd. rewrite !getSelected_twice. simpl. rewrite Hsd.
    pose proof Hsd as [_ Hday]%find_Some. fold (Spec.selectedOf sd).
    split; [|split].
    + intros (x & Hx & Hxn).
      destruct (list_find (λ s, slotNumber s = n) (slots sd)) as [[j y]|] eqn:Hf.
      * by apply (twice_present d n sd j y).
      * pose proof (proj2 (absent_list_find n (slots sd)) Hf) as Habsent.
        by destruct (Habsent x Hx).
    + intros Habsent Hnocat.
      assert (Hid : toggleDay d n sd = sd).
      { apply toggleDay_unknown;
          [by apply absent_list_find|by apply getSlotByNumber_None_iff]. }
      by rewrite !Hid.
    + intros Habsent c Hc Hcn.
      assert (Hget : TimeSlots.getSlotByNumber n = Some c)
        by (by apply getSlotByNumber_Some_iff).
      apply absent_list_find in Habsent.
      destruct (twice_absent d n sd c Hday Habsent Hget) as [Hsel Hin].
      rewrite Hsel.
      split; [done|]. split; [apply (sort_perm id)|].
      split; [apply (sort_sorted id)|]. split.
      * split.
        -- intros <-. apply (sort_sorted id).
        -- intros Hsorted. by apply (sort_id id).
      * eexists _, (toggleDay d n (toggleDay d n sd)).
        split; [reflexivity|]. simpl. unfold updatedSchedule.
        rewrite !find_toggleDay, Hsd. split; [done|].
        unfold toggledSlot, openedSlot in Hin. simpl in Hin. by rewrite Hcn in Hin.
Qed.

Lemma double_toggle_selected_witness :
  let week := initializeSchedule
    [mkSchedule Monday [mkSlot 5 "10:00" "10:15" (Some true);
                        mkSlot 3 "09:30" "09:45" (Some true)]] in
  let st := Some (Spec.form0 week) in
  let st2 := toggleSlotAvailability (toggleSlotAvailability st Monday 7) Monday 7 in
  getSelectedSlotsForDay st2 Tuesday = getSelectedSlotsForDay st Tuesday ∧
  getSelectedSlotsForDay st2 Monday =
    JS.sort (λ a b, a - b) (getSelectedSlotsForDay st Monday).
Proof.
  intros week st st2.
  destruct (double_toggle_selected (Spec.form0 week) Monday 7) as (Hother & _ & Hday).
  split; [by apply Hother|].
  destruct (Hday (mkSchedule Monday [mkSlot 5 "10:00" "10:15" (Some true);
                                     mkSlot 3 "09:30" "09:45" (Some true)]) eq_refl)
    as (_ & _ & Hnew).
  assert (Hseven : 1 <= 7 <= 48) by lia.
  destruct (getSlotByNumber_in_range 7 Hseven) as (c & _ & Hc & Hcn).
  apply (Hnew) with (c := c); [|done..].
  intros x Hx. apply elem_of_cons in Hx as [->|Hx]; [discriminate|].
  apply list_elem_of_singleton in Hx. subst x. discriminate.
Defined.

(** C10 as stated does not hold: on an initialized schedule whose Monday
    slots arrive in the order 5, 3, toggling the catalog slot 7 twice
    changes Monday's selected sequence from 5, 3 to 3, 5. *)
Lemma double_toggle_reorders :
  ¬ (∀ (s : list Schedule) (d d' : Day) (n : Z),
       is_Some (TimeSlots.getSlotByNumber n) →
       let st := Some (Spec.form0 (initializeSchedule s)) in
       getSelectedSlotsForDay
         (toggleSlotAvailability (toggleSlotAvailability st d n) d n) d' =
       getSelectedSlotsForDay st d').
Proof.
  intros Hclaim.
  specialize (Hclaim
    [mkSchedule Monday [mkSlot 5 "10:00" "10:15" (Some true);
                        mkSlot 3 "09:30" "09:45" (Some true)]]
    Monday Monday 7).
  assert (Hcat : is_Some (TimeSlots.getSlotByNumber 7)).
  { destruct (getSlotByNumber_in_range 7) as (c & -> & _); [lia|done]. }
  specialize (Hclaim Hcat). vm_compute in Hclaim. discriminate Hclaim.
Qed.

End ScheduleToggle.

(** * Further properties of the schedule editor *)

Section ScheduleInvariants.
Import Types DoctorProfile.

Implicit Types (fd : DoctorFormData) (sd : Schedule) (d : Day) (n : Z).

Lemma sorted_le_NoDup_lt (l : list Z) :
  StronglySorted Z.le l → NoDup l → StronglySorted Z.lt l.
Proof.
  induction 1 as [|x l Hl IH Hx]; intros Hnd; [constructor|].
  apply NoDup_cons in Hnd as [Hin Hnd]. constructor; [by apply IH|].
  rewrite Forall_forall in Hx |- *. intros y Hy.
  specialize (Hx y Hy). assert (x ≠ y) by (by intros ->). lia.
Qed.

Lemma sorted_lt_NoDup (l : list Z) : StronglySorted Z.lt l → NoDup l.
Proof.
  induction 1 as [|x l Hl IH Hx]; [constructor|].
  apply NoDup_cons. split; [|done].
  intros Hin. rewrite Forall_forall in Hx. specialize (Hx x Hin). lia.
Qed.

Lemma fmap_number_insert (l : list Slot) j x :
  l !! j = Some x →
  slotNumber <$> <[j := toggledSlot x]> l = slotNumber <$> l.
Proof.
  intros Hj. rewrite list_fmap_insert. apply list_insert_id.
  by rewrite list_lookup_fmap, Hj.
Qed.

Lemma catalog_slot_toggled x : Views.catalog_slot x → Views.catalog_slot (toggledSlot x).
Proof. intros (c & Hc & H1 & H2 & H3). by exists c. Qed.

Lemma catalog_slot_opened c :
  c ∈ TimeSlots.FIXED_TIME_SLOTS → Views.catalog_slot (openedSlot c).
Proof. intros Hc. by exists c. Qed.

Lemma toggleDay_tidy d n sd :
  StronglySorted Z.lt (slotNumber <$> slots sd) →
  Forall Views.catalog_slot (slots sd) →
  StronglySorted Z.lt (slotNumber <$> slots (toggleDay d n sd)) ∧
  Forall Views.catalog_slot (slots (toggleDay d n sd)).
Proof.
  intros Hsorted Hcat.
  destruct (decide (day sd = d)) as [Hd|Hd]; [|by rewrite toggleDay_other].
  destruct (list_find (λ s, slotNumber s = n) (slots sd)) as [[j x]|] eqn:Hf.
  - rewrite (toggleDay_present d n sd j x Hd Hf). cbn [slots].
    apply list_find_Some in Hf as (Hj & _ & _).
    rewrite fmap_number_insert by done. split; [done|].
    apply Forall_insert; [done|]. apply catalog_slot_toggled.
    rewrite Forall_forall in Hcat. apply Hcat. by eapply list_elem_of_lookup_2.
  - destruct (TimeSlots.getSlotByNumber n) as [c|] eqn:Hc;
      [|by rewrite toggleDay_unknown].
    rewrite (toggleDay_insert d n sd c Hd Hf Hc). cbn [slots].
    apply getSlotByNumber_Some_iff in Hc as [Hin Hcn].
    pose proof (proj2 (absent_list_find n (slots sd)) Hf) as Habsent.
    split.
    + unfold bySlotNumber. rewrite (fmap_sort slotNumber).
      apply sorted_le_NoDup_lt; [apply (sort_sorted id)|].
      rewrite (sort_perm id), fmap_app. apply NoDup_app.
      split; [by apply sorted_lt_NoDup|]. split; [|apply NoDup_singleton].
      intros m Hm Hm'. apply list_elem_of_singleton in Hm'. subst m.
      apply list_elem_of_fmap in Hm as (y & Hy & Hyin).
      apply (Habsent y Hyin). simpl in Hy. congruence.
    + unfold bySlotNumber. rewrite (sort_perm slotNumber).
      apply Forall_app. split; [done|].
      apply Forall_singleton. by apply catalog_slot_opened.
Qed.

Lemma updatedSchedule_tidy (week : list Schedule) d n :
  Views.tidy week → Views.tidy (updatedSchedule week d n).
Proof.
  intros Htidy sd' Hsd'. unfold updatedSchedule in Hsd'.
  apply list_elem_of_fmap in Hsd' as (sd & -> & Hsd).
  destruct (Htidy sd Hsd) as [Hsorted Hcat]. by apply toggleDay_tidy.
Qed.

Lemma updatedSchedule_days (week : list Schedule) d n :
  day <$> updatedSchedule week d n = day <$> week.
Proof.
  unfold updatedSchedule. rewrite <- list_fmap_compose. apply list_fmap_ext.
  intros i sd _. apply toggleDay_day.
Qed.

(** X2. Toggling keeps a schedule tidy: when every day lists catalog
    slots in strictly ascending slot-number order before the toggle, it
    does so after it, and the sequence of weekdays is the same. *)
Theorem toggle_keeps_tidy fd d n :
  Views.tidy (schedule fd) →
  ∃ fd', toggleSlotAvailability (Some fd) d n = Some fd' ∧
         Views.tidy (schedule fd') ∧
         day <$> schedule fd' = day <$> schedule fd.
Proof.
  intros Htidy. eexists. split; [reflexivity|]. simpl.
  split; [by apply updatedSchedule_tidy|apply updatedSchedule_days].
Qed.

Lemma tidy_empty_week : Views.tidy (initializeSchedule []).
Proof.
  intros sd Hsd. unfold initializeSchedule, days in Hsd. cbn in Hsd.
  repeat (apply elem_of_cons in Hsd as [->|Hsd]; [split; constructor|]).
  by apply elem_of_nil in Hsd.
Qed.

Lemma toggle_keeps_tidy_witness :
  ∃ fd', toggleSlotAvailability (Some (Spec.form0 (initializeSchedule []))) Friday 12
         = Some fd' ∧
         Views.tidy (schedule fd') ∧
         day <$> schedule fd' = days.
Proof.
  destruct (toggle_keeps_tidy (Spec.form0 (initializeSchedule [])) Friday 12
              tidy_empty_week) as (fd' & Hrun & Htidy & Hdays).
  exists fd'. split; [exact Hrun|]. split; [exact Htidy|]. exact Hdays.
Defined.

Lemma toggleDay_commute d1 n1 d2 n2 sd :
  d1 ≠ d2 →
  toggleDay d2 n2 (toggleDay d1 n1 sd) = toggleDay d1 n1 (toggleDay d2 n2 sd).
Proof.
  intros Hne. destruct (decide (day sd = d1)) as [H1|H1].
  - rewrite (toggleDay_other d2 n2 sd) by congruence.
    apply toggleDay_other. rewrite toggleDay_day. congruence.
  - rewrite (toggleDay_other d1 n1 sd) by done.
    symmetry. apply toggleDay_other. by rewrite toggleDay_day.
Qed.

(** X4. Toggles on two different weekdays commute: the form state does
    not depend on the order in which they are made. *)
Theorem toggles_commute_across_days st d1 n1 d2 n2 :
  d1 ≠ d2 →
  toggleSlotAvailability (toggleSlotAvailability st d1 n1) d2 n2 =
  toggleSlotAvailability (toggleSlotAvailability st d2 n2) d1 n1.
Proof.
  intros Hne. destruct st as [fd|]; [|done]. simpl. do 2 f_equal.
  unfold updatedSchedule. rewrite <- !list_fmap_compose.
  apply list_fmap_ext. intros i sd _. by apply toggleDay_commute.
Qed.

Lemma toggles_commute_across_days_witness :
  let st := Some (Spec.form0 (initializeSchedule [])) in
  toggleSlotAvailability (toggleSlotAvailability st Monday 3) Sunday 40 =
  toggleSlotAvailability (toggleSlotAvailability st Sunday 40) Monday 3.
Proof. intros st. by apply (toggles_commute_across_days st Monday 3 Sunday 40). Defined.

End ScheduleInvariants.

Section ScheduleSelection.
Import Types DoctorProfile.

Implicit Types (fd : DoctorFormData) (sd : Schedule) (d : Day) (n m : Z).

Abbreviation available := (λ slot : Slot, JS.truthy (isAvailable slot)).

Lemma getSelected_find fd d :
  getSelectedSlotsForDay (Some fd) d =
  match JS.find (λ x, day x = d) (schedule fd) with
  | Some sd => Spec.selectedOf sd
  | None => []
  end.
Proof. simpl. by destruct (JS.find _ (schedule fd)). Qed.

Lemma getSelected_once fd d n d' :
  getSelectedSlotsForDay (toggleSlotAvailability (Some fd) d n) d' =
  match JS.find (λ x, day x = d') (schedule fd) with
  | Some sd => Spec.selectedOf (toggleDay d n sd)
  | None => []
  end.
Proof.
  simpl. unfold updatedSchedule. rewrite find_toggleDay.
  by destruct (JS.find _ (schedule fd)).
Qed.

Lemma selected_subset (l : list Slot) m :
  m ∈ slotNumber <$> filter available l → m ∈ slotNumber <$> l.
Proof.
  intros (x & -> & Hx)%list_elem_of_fmap. apply list_elem_of_fmap.
  exists x. split; [done|]. by apply list_elem_of_filter in Hx as [_ Hx].
Qed.

Lemma selected_flip (l1 l2 : list Slot) x :
  slotNumber x ∉ slotNumber <$> l1 →
  slotNumber x ∉ slotNumber <$> l2 →
  let before := slotNumber <$> filter available (l1 ++ x :: l2) in
  let after := slotNumber <$> filter available (l1 ++ toggledSlot x :: l2) in
  (slotNumber x ∈ after ↔ slotNumber x ∉ before) ∧
  (∀ m, m ≠ slotNumber x → (m ∈ after ↔ m ∈ before)).
Proof.
  intros H1 H2 before after. unfold before, after.
  rewrite !filter_app, !filter_cons, !fmap_app.
  assert (H1' : slotNumber x ∉ slotNumber <$> filter available l1)
    by (intros Hin; by apply H1, selected_subset).
  assert (H2' : slotNumber x ∉ slotNumber <$> filter available l2)
    by (intros Hin; by apply H2, selected_subset).
  split.
  - destruct (isAvailable x) as [[]|] eqn:Hx; simpl; rewrite Hx; simpl;
      rewrite ?fmap_cons, !elem_of_app, ?elem_of_cons; simpl; tauto.
  - intros m Hm.
    destruct (isAvailable x) as [[]|] eqn:Hx; simpl; rewrite Hx; simpl;
      rewrite ?fmap_cons, !elem_of_app, ?elem_of_cons; simpl; tauto.
Qed.

Lemma toggleDay_flips d n sd :
  day sd = d →
  NoDup (slotNumber <$> slots sd) →
  n ∈ slotNumber <$> slots sd ∨ 1 <= n <= 48 →
  (n ∈ Spec.selectedOf (toggleDay d n sd) ↔ n ∉ Spec.selectedOf sd) ∧
  (∀ m, m ≠ n → (m ∈ Spec.selectedOf (toggleDay d n sd) ↔ m ∈ Spec.selectedOf sd)).
Proof.
  intros Hday Hnd Hn. unfold Spec.selectedOf.
  destruct (list_find (λ s, slotNumber s = n) (slots sd)) as [[j x]|] eqn:Hf.
  - rewrite (toggleDay_present d n sd j x Hday Hf). cbn [slots].
    pose proof Hf as (Hj & Hx & _)%list_find_Some.
    rewrite insert_take_drop by (by eapply lookup_lt_Some).
    pose proof (take_drop_middle (slots sd) j x Hj) as Hsplit.
    remember (take j (slots sd)) as l1 eqn:Hl1eq.
    remember (drop (S j) (slots sd)) as l2 eqn:Hl2eq.
    rewrite <- Hsplit in Hnd |- *.
    rewrite fmap_app, fmap_cons in Hnd.
    apply NoDup_app in Hnd as (_ & Hl1 & Hnd').
    apply NoDup_cons in Hnd' as [Hl2 _].
    subst n. apply selected_flip; [|done].
    intros Hin. apply (Hl1 _ Hin). left.
  - pose proof (proj2 (absent_list_find n (slots sd)) Hf) as Habsent.
    destruct Hn as [Hin|Hrange].
    { apply list_elem_of_fmap in Hin as (y & -> & Hy). by destruct (Habsent y Hy). }
    destruct (getSlotByNumber_in_range n Hrange) as (c & Hc & Hcin & Hcn).
    rewrite (toggleDay_insert d n sd c Hday Hf Hc). cbn [slots].
    unfold bySlotNumber. rewrite (filter_sort slotNumber), (fmap_sort slotNumber).
    rewrite filter_app, filter_cons_True, filter_nil, fmap_app by done.
    assert (Hnot : n ∉ slotNumber <$> filter available (slots sd)).
    { intros Hsel. apply selected_subset in Hsel.
      apply list_elem_of_fmap in Hsel as (y & Hy & Hyin). by destruct (Habsent y Hyin). }
    split.
    + rewrite (sort_perm id), elem_of_app. simpl. rewrite Hcn.
      split; [done|]. intros _. right. by left.
    + intros m Hm. rewrite (sort_perm id), elem_of_app. simpl. rewrite Hcn.
      rewrite list_elem_of_singleton. tauto.
Qed.

(** X1. One toggle flips exactly one selection. When the day's slot
    numbers are distinct and the number is in the day's set or in the
    catalog, toggling it makes it selected if it was not and unselected
    if it was; every other number of that day keeps its state, and the
    other weekdays keep their selected sequences. *)
Theorem toggle_flips_selection fd d n sd :
  JS.find (λ x, day x = d) (schedule fd) = Some sd →
  NoDup (slotNumber <$> slots sd) →
  n ∈ slotNumber <$> slots sd ∨ 1 <= n <= 48 →
  let st := Some fd in
  let st' := toggleSlotAvailability st d n in
  (n ∈ getSelectedSlotsForDay st' d ↔ n ∉ getSelectedSlotsForDay st d) ∧
  (∀ m, m ≠ n → (m ∈ getSelectedSlotsForDay st' d ↔ m ∈ getSelectedSlotsForDay st d)) ∧
  (∀ d', d' ≠ d → getSelectedSlotsForDay st' d' = getSelectedSlotsForDay st d').
Proof.
  intros Hsd Hnd Hn st st'. subst st' st.
  pose proof Hsd as [_ Hday]%find_Some.
  destruct (toggleDay_flips d n sd Hday Hnd Hn) as [Hflip Hkeep].
  split; [|split].
  - by rewrite getSelected_once, getSelected_find, Hsd.
  - intros m Hm. rewrite getSelected_once, getSelected_find, Hsd. by apply Hkeep.
  - intros d' Hd'. rewrite getSelected_once, getSelected_find.
    destruct (JS.find (λ x, day x = d') (schedule fd)) as [sd'|] eqn:Hsd'; [|done].
    apply find_Some in Hsd' as [_ Hday']. rewrite toggleDay_other; [done|congruence].
Qed.

Lemma toggle_flips_selection_witness :
  let monday := mkSchedule Monday [mkSlot 5 "10:00" "10:15" (Some true);
                                   mkSlot 3 "09:30" "09:45" (Some false)] in
  let st := Some (Spec.form0 [monday]) in
  (5 ∈ getSelectedSlotsForDay (toggleSlotAvailability st Monday 5) Monday ↔
   5 ∉ getSelectedSlotsForDay st Monday) ∧
  (7 ∈ getSelectedSlotsForDay (toggleSlotAvailability st Monday 7) Monday ↔
   7 ∉ getSelectedSlotsForDay st Monday).
Proof.
  intros monday st.
  assert (Hnd : NoDup (slotNumber <$> slots monday)).
  { apply NoDup_cons. split; [|apply NoDup_singleton].
    intros Hin. apply list_elem_of_singleton in Hin. discriminate. }
  split.
  - apply (toggle_flips_selection (Spec.form0 [monday]) Monday 5 monday eq_refl Hnd).
    left. by left.
  - apply (toggle_flips_selection (Spec.form0 [monday]) Monday 7 monday eq_refl Hnd).
    right. lia.
Defined.

End ScheduleSelection.

Section SchedulePersistence.
Import Types DoctorProfile.

Implicit Types (fd : DoctorFormData) (sd : Schedule) (d : Day) (s : list Schedule).

Import Views.

Abbreviation truthySlot := (λ slot : Slot, JS.truthy (isAvailable slot)).

Lemma cleanedSchedule_cons sd s :
  cleanedSchedule (sd :: s) =
  if decide (filter truthySlot (slots sd) = [])
  then cleanedSchedule s else cleanDay sd :: cleanedSchedule s.
Proof.
  unfold cleanedSchedule. rewrite fmap_cons, filter_cons. simpl.
  destruct (filter truthySlot (slots sd)) as [|x l] eqn:Hk; simpl; [done|].
  unfold cleanDay. by rewrite Hk.
Qed.

Lemma filter_truthy_idem (l : list Slot) :
  filter truthySlot (filter truthySlot l) = filter truthySlot l.
Proof. apply filter_all. by intros x [? _]%list_elem_of_filter. Qed.

Lemma cleanDay_idem sd : cleanDay (cleanDay sd) = cleanDay sd.
Proof. unfold cleanDay. simpl. by rewrite filter_truthy_idem. Qed.

Lemma elem_of_cleanedSchedule r s :
  r ∈ cleanedSchedule s ↔ ∃ sd, sd ∈ s ∧ r = cleanDay sd ∧ slots r ≠ [].
Proof.
  induction s as [|sd s IH].
  - split; [by intros ?%elem_of_nil|]. by intros (sd & ?%elem_of_nil & _).
  - rewrite cleanedSchedule_cons.
    destruct (decide (filter truthySlot (slots sd) = [])) as [Hnil|Hne].
    + rewrite IH. split.
      * intros (sd' & Hin & Hr). exists sd'. split; [by right|done].
      * intros (sd' & Hin & -> & Hr). apply elem_of_cons in Hin as [->|Hin].
        -- by destruct Hr.
        -- by exists sd'.
    + rewrite elem_of_cons, IH. split.
      * intros [->|(sd' & Hin & Hr)].
        -- exists sd. split; [by left|done].
        -- exists sd'. split; [by right|done].
      * intros (sd' & Hin & -> & Hr). apply elem_of_cons in Hin as [->|Hin].
        -- by left.
        -- right. by exists sd'.
Qed.

Lemma cleanedSchedule_days_sublist s :
  day <$> cleanedSchedule s `sublist_of` day <$> s.
Proof.
  induction s as [|sd s IH]; [done|].
  rewrite cleanedSchedule_cons, fmap_cons.
  destruct (decide _); [by apply sublist_cons|].
  rewrite fmap_cons. by apply sublist_skip.
Qed.

(** X5. Cleaning is idempotent and only ever leaves days out: cleaning a
    cleaned schedule changes nothing, and the days of the cleaned
    schedule are those of the input, in the input's order, with some
    missing. *)
Theorem cleanedSchedule_idempotent s :
  cleanedSchedule (cleanedSchedule s) = cleanedSchedule s ∧
  day <$> cleanedSchedule s `sublist_of` day <$> s.
Proof.
  split; [|apply cleanedSchedule_days_sublist].
  induction s as [|sd s IH]; [done|].
  rewrite cleanedSchedule_cons.
  destruct (decide (filter truthySlot (slots sd) = [])) as [Hnil|Hne]; [done|].
  rewrite cleanedSchedule_cons. simpl.
  rewrite filter_truthy_idem, decide_False by done.
  by rewrite cleanDay_idem, IH.
Qed.

Lemma selectedOf_cleanDay sd : Spec.selectedOf (cleanDay sd) = Spec.selectedOf sd.
Proof. unfold Spec.selectedOf, cleanDay. simpl. by rewrite filter_truthy_idem. Qed.

Lemma selectedIn_cleaned s d :
  NoDup (day <$> s) → selectedIn (cleanedSchedule s) d = selectedIn s d.
Proof.
  unfold selectedIn. induction s as [|sd s IH]; intros Hnd; [done|].
  rewrite fmap_cons in Hnd. apply NoDup_cons in Hnd as [Hfresh Hnd].
  rewrite cleanedSchedule_cons, (find_cons _ sd).
  destruct (decide (filter truthySlot (slots sd) = [])) as [Hnil|Hne].
  - destruct (decide (day sd = d)) as [Hd|Hd]; [|by apply IH].
    unfold Spec.selectedOf at 2. rewrite Hnil. simpl.
    assert (Hnone : JS.find (λ x, day x = d) (cleanedSchedule s) = None).
    { apply find_None. intros r Hr Hrd. apply Hfresh.
      apply elem_of_cleanedSchedule in Hr as (sd' & Hin & -> & _).
      apply list_elem_of_fmap. exists sd'. split; [|done]. simpl in Hrd. congruence. }
    by rewrite Hnone.
  - rewrite find_cons. simpl.
    destruct (decide (day sd = d)) as [Hd|Hd]; [|by apply IH].
    apply selectedOf_cleanDay.
Qed.

(** X6. Cleaning does not change what is selected: when no weekday
    occurs twice in the schedule, [getSelectedSlotsForDay] gives for
    every weekday the same sequence on the cleaned schedule as on the
    schedule being edited. *)
Theorem cleaning_keeps_selection fd fd' :
  NoDup (day <$> schedule fd) →
  schedule fd' = cleanedSchedule (schedule fd) →
  ∀ d, getSelectedSlotsForDay (Some fd') d = getSelectedSlotsForDay (Some fd) d.
Proof.
  intros Hnd Hclean d. rewrite !getSelected_find, Hclean.
  by apply selectedIn_cleaned.
Qed.

Lemma NoDup_days : NoDup days.
Proof. apply (bool_decide_unpack (NoDup days)). by vm_compute. Qed.

Lemma initializeSchedule_days s : day <$> initializeSchedule s = days.
Proof.
  unfold initializeSchedule. rewrite <- list_fmap_compose.
  unfold days. cbn [fmap list_fmap compose]. by rewrite !initializeDay_day.
Qed.

Lemma cleaning_keeps_selection_witness :
  let week := initializeSchedule
    [mkSchedule Tuesday [mkSlot 5 "10:00" "10:15" (Some true);
                         mkSlot 6 "10:15" "10:30" (Some false)]] in
  getSelectedSlotsForDay (Some (Spec.form0 (cleanedSchedule week))) Tuesday =
  getSelectedSlotsForDay (Some (Spec.form0 week)) Tuesday.
Proof.
  intros week.
  apply (cleaning_keeps_selection (Spec.form0 week) (Spec.form0 (cleanedSchedule week))).
  - change (NoDup (day <$> week)). unfold week.
    rewrite initializeSchedule_days. apply NoDup_days.
  - reflexivity.
Defined.

Lemma selectedOf_initializeDay s d :
  Spec.selectedOf (initializeDay s d) =
  match JS.find (λ x, day x = d) s with
  | Some e => slotNumber <$> filter (λ x, isAvailable x ≠ Some false) (slots e)
  | None => []
  end.
Proof.
  unfold initializeDay, Spec.selectedOf.
  destruct (JS.find _ s) as [e|]; [|done]. simpl.
  induction (slots e) as [|x l IH]; [done|].
  rewrite fmap_cons, !filter_cons. simpl.
  destruct (isAvailable x) as [[]|]; simpl;
    [f_equal; exact IH|exact IH|f_equal; exact IH].
Qed.

(** X19. Loading treats a missing [isAvailable] as available: on the
    initialized schedule, a weekday's selected numbers are those of the
    slots of the input's entry for that day whose [isAvailable] is not
    false, undefined ones included; a weekday without entry has none. *)
Theorem initializeSchedule_selects_undefined s d :
  getSelectedSlotsForDay (Some (Spec.form0 (initializeSchedule s))) d =
  match JS.find (λ x, day x = d) s with
  | Some e => slotNumber <$> filter (λ x, isAvailable x ≠ Some false) (slots e)
  | None => []
  end.
Proof.
  rewrite getSelected_find. simpl. rewrite find_initializeSchedule.
  apply selectedOf_initializeDay.
Qed.

Lemma selectedIn_initialized_cleaned s d :
  selectedIn (initializeSchedule (cleanedSchedule s)) d = selectedIn (cleanedSchedule s) d.
Proof.
  unfold selectedIn at 1. rewrite find_initializeSchedule, selectedOf_initializeDay.
  unfold selectedIn. destruct (JS.find _ (cleanedSchedule s)) as [e|] eqn:He; [|done].
  apply find_Some in He as [He _].
  apply elem_of_cleanedSchedule in He as (sd & _ & -> & _).
  unfold Spec.selectedOf, cleanDay. simpl. f_equal.
  rewrite filter_truthy_idem. apply filter_all.
  intros x [Hx _]%list_elem_of_filter. by destruct (isAvailable x) as [[]|].
Qed.

(** X7. Saving and reloading keeps the selection. When no weekday occurs
    twice and the contact number is empty or 10 characters long,
    [handleSubmit] sends the cleaned schedule; and when the service
    answers with that schedule, the new form state holds a full week
    Monday..Sunday on which every weekday has the selected numbers it
    had before saving. *)
Theorem save_reload_keeps_selection fd :
  NoDup (day <$> schedule fd) →
  contactNumber fd = "" ∨ String.length (contactNumber fd) = 10%nat →
  ∃ data, DoctorProfileForm.handleSubmit_request (Some fd) = DoctorProfileForm.Request data ∧
    DoctorProfileForm.schedule data = cleanedSchedule (schedule fd) ∧
    ∀ response, DoctorProfileForm.res_schedule response = Some (DoctorProfileForm.schedule data) →
      ∃ fd', DoctorProfileForm.handleSubmit_response (Some fd) (Some response) = Some fd' ∧
        day <$> schedule fd' = days ∧
        ∀ d, getSelectedSlotsForDay (Some fd') d = getSelectedSlotsForDay (Some fd) d.
Proof.
  intros Hnd Hcontact. unfold DoctorProfileForm.handleSubmit_request.
  rewrite decide_False by (intros [? ?]; by destruct Hcontact).
  eexists. split; [reflexivity|]. split; [reflexivity|]. simpl.
  intros response Hres. eexists. split; [reflexivity|].
  unfold DoctorProfileForm.newFormData. rewrite Hres. cbn [schedule default].
  split; [apply initializeSchedule_days|].
  intros d.
  change (selectedIn (initializeSchedule (cleanedSchedule (schedule fd))) d =
          selectedIn (schedule fd) d).
  rewrite selectedIn_initialized_cleaned. by apply selectedIn_cleaned.
Qed.

Lemma save_reload_keeps_selection_witness :
  let week := updatedSchedule (initializeSchedule []) Thursday 10 in
  let fd := mkFormData "Asha" "a@b.c" "" "ENT" 4 "MS" "" "9876543210" week in
  ∃ data, DoctorProfileForm.handleSubmit_request (Some fd) = DoctorProfileForm.Request data ∧
    DoctorProfileForm.schedule data = cleanedSchedule week ∧
    ∀ response, DoctorProfileForm.res_schedule response = Some (DoctorProfileForm.schedule data) →
      ∃ fd', DoctorProfileForm.handleSubmit_response (Some fd) (Some response) = Some fd' ∧
        day <$> schedule fd' = days ∧
        ∀ d, getSelectedSlotsForDay (Some fd') d = getSelectedSlotsForDay (Some fd) d.
Proof.
  intros week fd. apply (save_reload_keeps_selection fd).
  - change (NoDup (day <$> week)). unfold week.
    rewrite updatedSchedule_days, initializeSchedule_days. apply NoDup_days.
  - right. reflexivity.
Defined.

Lemma find_permutation s s' d :
  s ≡ₚ s' → NoDup (day <$> s) →
  JS.find (λ x, day x = d) s = JS.find (λ x, day x = d) s'.
Proof.
  intros Hperm Hnd.
  destruct (JS.find (λ x, day x = d) s) as [e|] eqn:He.
  - apply find_Some in He as [Hin Hd]. symmetry.
    apply find_unique; [by rewrite <- Hperm|done|].
    intros e' Hin' Hd'. rewrite <- Hperm in Hin'.
    apply list_elem_of_lookup in Hin as [i Hi], Hin' as [j Hj].
    assert (i = j) as ->; [|congruence].
    eapply NoDup_lookup; [exact Hnd|..].
    + by rewrite list_lookup_fmap, Hi.
    + rewrite list_lookup_fmap, Hj. simpl. congruence.
  - symmetry. apply find_None. intros x Hx. rewrite <- Hperm in Hx.
    by apply (proj1 (find_None (λ x, day x = d) s) He).
Qed.

(** X20. The initialized week does not depend on the order in which the
    days arrive: for an input in which no weekday occurs twice, every
    reordering of the input gives the same seven entries. *)
Theorem initializeSchedule_order_irrelevant s s' :
  s ≡ₚ s' → NoDup (day <$> s) → initializeSchedule s = initializeSchedule s'.
Proof.
  intros Hperm Hnd. unfold initializeSchedule. apply list_fmap_ext.
  intros _ d _. unfold initializeDay. by rewrite (find_permutation s s' d).
Qed.

Lemma initializeSchedule_order_irrelevant_witness :
  let mon := mkSchedule Monday [mkSlot 1 "09:00" "09:15" None] in
  let sun := mkSchedule Sunday [mkSlot 48 "20:45" "21:00" (Some true)] in
  initializeSchedule [mon; sun] = initializeSchedule [sun; mon].
Proof.
  intros mon sun. apply (initializeSchedule_order_irrelevant [mon; sun] [sun; mon]).
  - apply Permutation_swap.
  - apply (bool_decide_unpack (NoDup (day <$> [mon; sun]))). by vm_compute.
Defined.

Lemma sorted_fmap_filter {A} (f : A → Z) (P : A → Prop) `{∀ x, Decision (P x)}
    (l : list A) :
  StronglySorted Z.lt (f <$> l) → StronglySorted Z.lt (f <$> filter P l).
Proof.
  induction l as [|x l IH]; [done|].
  rewrite fmap_cons. intros [Hl Hx]%StronglySorted_inv.
  rewrite filter_cons. destruct (decide (P x)); [|by apply IH].
  rewrite fmap_cons. constructor; [by apply IH|].
  rewrite Forall_forall in Hx |- *. intros y Hy. apply Hx.
  apply list_elem_of_fmap in Hy as (z & -> & Hz). apply list_elem_of_fmap.
  exists z. split; [done|]. by apply list_elem_of_filter in Hz as [_ Hz].
Qed.

Lemma cleanedSchedule_tidy s : tidy s → tidy (cleanedSchedule s).
Proof.
  intros Htidy r Hr. apply elem_of_cleanedSchedule in Hr as (sd & Hsd & -> & _).
  destruct (Htidy sd Hsd) as [Hsorted Hcat]. unfold cleanDay. simpl. split.
  - by apply sorted_fmap_filter.
  - rewrite Forall_forall in Hcat |- *.
    intros x [_ Hx]%list_elem_of_filter. by apply Hcat.
Qed.

Lemma toggles_tidy clicks fd :
  tidy (schedule fd) →
  ∃ fd', toggles (Some fd) clicks = Some fd' ∧
         day <$> schedule fd' = day <$> schedule fd ∧ tidy (schedule fd').
Proof.
  revert fd. induction clicks as [|[d n] clicks IH]; intros fd Htidy.
  - by exists fd.
  - unfold toggles. cbn [foldl toggleSlotAvailability fst snd].
    set (fd1 := mkFormData _ _ _ _ _ _ _ _ (updatedSchedule (schedule fd) d n)).
    destruct (IH fd1) as (fd' & Hrun & Hdays & Htidy').
    { by apply updatedSchedule_tidy. }
    exists fd'. split; [exact Hrun|]. split; [|done].
    rewrite Hdays. apply updatedSchedule_days.
Qed.

(** X3. Whatever slots are clicked, starting from the empty week: the
    form state keeps the seven weekdays in order with every day listing
    catalog slots in strictly ascending order, and the schedule that
    would be sent keeps that shape with no weekday twice. *)
Theorem clicks_from_empty_week clicks :
  ∃ fd', toggles (Some (Spec.form0 (initializeSchedule []))) clicks = Some fd' ∧
    day <$> schedule fd' = days ∧
    tidy (schedule fd') ∧
    tidy (cleanedSchedule (schedule fd')) ∧
    NoDup (day <$> cleanedSchedule (schedule fd')).
Proof.
  destruct (toggles_tidy clicks (Spec.form0 (initializeSchedule [])) tidy_empty_week)
    as (fd' & Hrun & Hdays & Htidy).
  exists fd'. split; [exact Hrun|]. split; [exact Hdays|]. split; [exact Htidy|].
  split; [by apply cleanedSchedule_tidy|].
  eapply sublist_NoDup; [|apply cleanedSchedule_days_sublist].
  rewrite Hdays. apply NoDup_days.
Qed.

Lemma find_in_week s d :
  day <$> s = days → ∃ sd, JS.find (λ x, day x = d) s = Some sd ∧ sd ∈ s ∧ day sd = d.
Proof.
  intros Hdays.
  assert (Hd : d ∈ day <$> s) by (rewrite Hdays; unfold days; destruct d; set_solver).
  apply list_elem_of_fmap in Hd as (sd0 & Hd0 & Hin0).
  destruct (find_is_Some (λ x, day x = d) s sd0 Hin0) as [sd Hsd]; [done|].
  exists sd. split; [done|]. by apply find_Some in Hsd.
Qed.

Lemma tidy_selected_range s d n :
  tidy s → n ∈ selectedIn s d → 1 <= n <= 48.
Proof.
  intros Htidy. unfold selectedIn.
  destruct (JS.find _ s) as [sd|] eqn:Hsd; [|by intros ?%elem_of_nil].
  apply find_Some in Hsd as [Hin _]. destruct (Htidy sd Hin) as [_ Hcat].
  intros (x & -> & Hx)%list_elem_of_fmap.
  apply list_elem_of_filter in Hx as [_ Hx].
  rewrite Forall_forall in Hcat. destruct (Hcat x Hx) as (c & Hc & -> & _).
  by apply catalog_number_range.
Qed.

Lemma selectedIn_updated s d0 n0 d :
  selectedIn (updatedSchedule s d0 n0) d =
  match JS.find (λ x, day x = d) s with
  | Some sd => Spec.selectedOf (toggleDay d0 n0 sd)
  | None => []
  end.
Proof.
  unfold selectedIn, updatedSchedule. rewrite find_toggleDay.
  by destruct (JS.find _ s).
Qed.

Lemma clickCount_snoc clicks d0 n0 d n :
  clickCount (clicks ++ [(d0, n0)]) d n =
  (clickCount clicks d n + (if decide ((d0, n0) = (d, n)) then 1 else 0))%nat.
Proof.
  unfold clickCount. rewrite filter_app, length_app. f_equal.
  rewrite filter_cons, filter_nil. by destruct (decide _).
Qed.

Lemma toggles_snoc st clicks d n :
  toggles st (clicks ++ [(d, n)]) = toggleSlotAvailability (toggles st clicks) d n.
Proof. unfold toggles. by rewrite foldl_app. Qed.

Lemma clicks_parity clicks :
  ∃ fd', toggles (Some (Spec.form0 (initializeSchedule []))) clicks = Some fd' ∧
    day <$> schedule fd' = days ∧ tidy (schedule fd') ∧
    ∀ d n, n ∈ selectedIn (schedule fd') d ↔
           1 <= n <= 48 ∧ Nat.odd (clickCount clicks d n) = true.
Proof.
  induction clicks as [|[d0 n0] clicks IH] using rev_ind.
  - exists (Spec.form0 (initializeSchedule [])).
    split; [done|]. split; [done|]. split; [apply tidy_empty_week|].
    intros d n. unfold selectedIn. cbn [schedule Spec.form0].
    rewrite find_initializeSchedule. simpl. split; [by intros ?%elem_of_nil|].
    by intros [_ ?].
  - destruct IH as (fd1 & Hrun & Hdays & Htidy & Hsel).
    rewrite toggles_snoc, Hrun. eexists. split; [reflexivity|]. cbn [schedule].
    split; [by rewrite updatedSchedule_days|].
    assert (Htidy' : tidy (updatedSchedule (schedule fd1) d0 n0))
      by (by apply updatedSchedule_tidy).
    split; [done|]. intros d n.
    rewrite clickCount_snoc.
    destruct (find_in_week (schedule fd1) d Hdays) as (sd & Hfind & Hin & Hday).
    assert (Hnd : NoDup (slotNumber <$> slots sd)).
    { apply sorted_lt_NoDup. by destruct (Htidy sd Hin). }
    assert (Hbefore : selectedIn (schedule fd1) d = Spec.selectedOf sd)
      by (unfold selectedIn; by rewrite Hfind).
    pose proof (selectedIn_updated (schedule fd1) d0 n0 d) as Hafter.
    rewrite Hfind in Hafter.
    destruct (decide ((d0, n0) = (d, n))) as [[= -> ->]|Hother].
    + rewrite Nat.add_1_r, Nat.odd_succ, <- Nat.negb_odd.
      destruct (decide (1 <= n <= 48)) as [Hrange|Hrange].
      * destruct (toggleDay_flips d n sd Hday Hnd (or_intror Hrange)) as [Hflip _].
        rewrite Hafter, Hflip, <- Hbefore, Hsel.
        destruct (Nat.odd (clickCount clicks d n)); simpl; intuition congruence.
      * split; [|tauto]. intros Hn. exfalso. apply Hrange.
        by apply (tidy_selected_range _ d n Htidy').
    + rewrite Nat.add_0_r, <- Hsel, Hbefore, Hafter.
      destruct (decide (day sd = d0)) as [Hd0|Hd0]; [|by rewrite toggleDay_other].
      assert (n ≠ n0) by (intros ->; apply Hother; congruence).
      destruct (decide (n0 ∈ slotNumber <$> slots sd ∨ 1 <= n0 <= 48)) as [Hn0|Hn0].
      * destruct (toggleDay_flips d0 n0 sd Hd0 Hnd Hn0) as [_ Hkeep]. by apply Hkeep.
      * rewrite toggleDay_unknown; [done|..].
        -- apply absent_list_find. intros x Hx Hxn. apply Hn0. left.
           apply list_elem_of_fmap. by exists x.
        -- apply getSlotByNumber_out_of_range. tauto.
Qed.

(** X21. From the empty week, a slot is selected exactly when it is a
    catalog slot that was clicked an odd number of times: for every run
    of clicks, weekday and number, the number is among the weekday's
    selected slot numbers if and only if it lies in 1..48 and the click
    on that weekday and number occurs an odd number of times in the run;
    and the selected numbers are listed in strictly ascending order. *)
Theorem selection_is_odd_clicks clicks d n :
  ∃ fd', toggles (Some (Spec.form0 (initializeSchedule []))) clicks = Some fd' ∧
    (n ∈ getSelectedSlotsForDay (Some fd') d ↔
     1 <= n <= 48 ∧ Nat.odd (clickCount clicks d n) = true) ∧
    StronglySorted Z.lt (getSelectedSlotsForDay (Some fd') d).
Proof.
  destruct (clicks_parity clicks) as (fd' & Hrun & Hdays & Htidy & Hsel).
  exists fd'. split; [exact Hrun|]. rewrite getSelected_find.
  split; [apply Hsel|].
  destruct (find_in_week (schedule fd') d Hdays) as (sd & Hfind & Hin & _).
  rewrite Hfind. unfold Spec.selectedOf. apply sorted_fmap_filter.
  by destruct (Htidy sd Hin).
Qed.

End SchedulePersistence.

(** * The profile form *)

Section ProfileForm.
Import Types DoctorProfile Views.

Implicit Types (fd : DoctorFormData).

Lemma removeNonDigits_all_digits value :
  all_digits (DoctorProfileForm.removeNonDigits value).
Proof.
  induction value as [|c rest IH]; [done|]. simpl.
  destruct (JS.digit c) as [k|] eqn:Hc; [|done]. simpl. by rewrite Hc.
Qed.

Lemma removeNonDigits_id value :
  all_digits value → DoctorProfileForm.removeNonDigits value = value.
Proof.
  induction value as [|c rest IH]; [done|]. simpl. intros [[k Hc] Hrest].
  rewrite Hc. f_equal. by apply IH.
Qed.

(** X8. Typing into the contact-number input stores digits only, and at
    most ten of them. The change always goes through; the stored number
    becomes the digits of the typed text when there are at most ten, and
    stays what it was when there are more; a text of at most ten digits
    is stored as typed; no other field of the form changes. *)
Theorem handleChange_contactNumber fd value :
  let digits := DoctorProfileForm.removeNonDigits value in
  ∃ fd', DoctorProfileForm.handleChange (Some fd) "contactNumber" value = Some (Some fd') ∧
    ((String.length digits ≤ 10)%nat → contactNumber fd' = digits) ∧
    ((10 < String.length digits)%nat → fd' = fd) ∧
    all_digits digits ∧
    (all_digits value → (String.length value ≤ 10)%nat → contactNumber fd' = value) ∧
    (name fd', email fd', avatar fd', specialization fd', experience fd',
     qualification fd', about fd', schedule fd') =
    (name fd, email fd, avatar fd, specialization fd, experience fd,
     qualification fd, about fd, schedule fd).
Proof.
  intros digits. unfold DoctorProfileForm.handleChange.
  rewrite decide_True by done. fold digits.
  destruct fd as [n e a sp ex q ab cn sch].
  destruct (decide (String.length digits ≤ 10)%nat) as [Hle|Hgt].
  - eexists. split; [reflexivity|]. simpl.
    split; [done|]. split; [lia|].
    split; [apply removeNonDigits_all_digits|]. split; [|done].
    intros Hall _. unfold digits. by apply removeNonDigits_id.
  - eexists. split; [reflexivity|]. simpl.
    split; [lia|]. split; [done|].
    split; [apply removeNonDigits_all_digits|]. split; [|done].
    intros Hall Hlen. exfalso. apply Hgt. unfold digits.
    by rewrite removeNonDigits_id.
Qed.

Lemma handleChange_contactNumber_witness :
  ∃ fd', DoctorProfileForm.handleChange (Some (Spec.form0 [])) "contactNumber" "98-76 54x"
         = Some (Some fd') ∧
         contactNumber fd' = "987654".
Proof.
  destruct (handleChange_contactNumber (Spec.form0 []) "98-76 54x")
    as (fd' & Hrun & Hshort & _).
  exists fd'. split; [exact Hrun|]. apply Hshort. simpl. lia.
Defined.

(** X9. What was typed decides whether the form can be sent. After a
    contact-number change whose text holds no digit or exactly ten,
    [handleSubmit] builds the request, with those digits as contact
    number; after one whose text holds one to nine digits it stops with
    the message that the number must be exactly 10 digits. *)
Theorem typed_contact_gates_submit fd value :
  let digits := DoctorProfileForm.removeNonDigits value in
  ∃ st', DoctorProfileForm.handleChange (Some fd) "contactNumber" value = Some st' ∧
    (String.length digits = 0%nat ∨ String.length digits = 10%nat →
       ∃ data, DoctorProfileForm.handleSubmit_request st' = DoctorProfileForm.Request data ∧
               DoctorProfileForm.contactNumber data = digits ∧
               DoctorProfileForm.schedule data = cleanedSchedule (schedule fd)) ∧
    ((1 ≤ String.length digits ≤ 9)%nat →
       DoctorProfileForm.handleSubmit_request st' =
       DoctorProfileForm.Rejected "Contact number must be exactly 10 digits").
Proof.
  intros digits. unfold DoctorProfileForm.handleChange.
  rewrite decide_True by done. fold digits.
  destruct fd as [n e a sp ex q ab cn sch].
  destruct (decide (String.length digits ≤ 10)%nat) as [Hle|Hgt];
    [|eexists; split; [reflexivity|]; split; intros; lia].
  eexists. split; [reflexivity|]. simpl.
  unfold DoctorProfileForm.handleSubmit_request. cbn [contactNumber].
  split.
  - intros Hlen. rewrite decide_False.
    + eexists. split; [reflexivity|]. done.
    + intros [Hne Hlen']. destruct Hlen as [Hzero|Hten]; [|done].
      apply Hne. by destruct digits.
  - intros Hlen. rewrite decide_True; [done|]. split; [|lia].
    intros Hempty. rewrite Hempty in Hlen. simpl in Hlen. lia.
Qed.

Lemma typed_contact_gates_submit_witness :
  (∃ st', DoctorProfileForm.handleChange (Some (Spec.form0 [])) "contactNumber" "(987) 654-3210"
          = Some st' ∧
          ∃ data, DoctorProfileForm.handleSubmit_request st' = DoctorProfileForm.Request data ∧
                  DoctorProfileForm.contactNumber data = "9876543210") ∧
  (∃ st', DoctorProfileForm.handleChange (Some (Spec.form0 [])) "contactNumber" "12345"
          = Some st' ∧
          DoctorProfileForm.handleSubmit_request st' =
          DoctorProfileForm.Rejected "Contact number must be exactly 10 digits").
Proof.
  split.
  - destruct (typed_contact_gates_submit (Spec.form0 []) "(987) 654-3210")
      as (st' & Hrun & Hok & _).
    exists st'. split; [exact Hrun|].
    destruct Hok as (data & Hreq & Hcn & _); [right; reflexivity|].
    exists data. split; [exact Hreq|exact Hcn].
  - destruct (typed_contact_gates_submit (Spec.form0 []) "12345")
      as (st' & Hrun & _ & Hbad).
    exists st'. split; [exact Hrun|]. apply Hbad. simpl. lia.
Defined.



End ProfileForm.

(** * The slot selector *)

Section Selector.
Import TimeSlots TimeBlockSelector Views.

Implicit Types (props : Props) (b : TimeBlock) (expanded : gset Z).

Arguments blockSlotsOf : simpl never.

Lemma getSlotsForBlock_index (i : nat) b :
  TIME_BLOCKS !! i = Some b → getSlotsForBlock (Z.of_nat i) = Some (blockSlotsOf b).
Proof.
  intros Hb. unfold getSlotsForBlock.
  pose proof (lookup_lt_Some _ _ _ Hb) as Hlt.
  rewrite decide_False by lia. rewrite Nat2Z.id, Hb.
  unfold blockSlotsOf. reflexivity.
Qed.

Lemma elem_of_blockSlotsOf slot b :
  slot ∈ blockSlotsOf b ↔ slot ∈ FIXED_TIME_SLOTS ∧ in_block b (slotNumber slot).
Proof. unfold blockSlotsOf. rewrite list_elem_of_filter. tauto. Qed.

Lemma block_range b n : b ∈ TIME_BLOCKS → in_block b n → 1 <= n <= 48.
Proof.
  intros Hb Hin. unfold TIME_BLOCKS in Hb.
  repeat (apply elem_of_cons in Hb as [->|Hb]; [unfold in_block in Hin; simpl in Hin; lia|]).
  by apply elem_of_nil in Hb.
Qed.


#[local] Opaque blockSlotsOf.

Lemma filter_selected props (l : list TimeSlot) :
  filter (λ slot, isSlotSelected props (slotNumber slot)) l =
  filter (λ slot, slotNumber slot ∈ selectedSlots props) l.
Proof.
  apply list_filter_iff. intros x. unfold isSlotSelected.
  by rewrite bool_decide_spec.
Qed.

Lemma badge_text (k : nat) :
  JS.toString (Z.of_nat k) +:+ " slot" +:+ (if decide (k ≠ 1%nat) then "s" else "") =
  badgeText k.
Proof.
  unfold badgeText. destruct (decide (k = 1%nat)) as [->|Hk]; [done|].
  rewrite decide_True by done.
  generalize (JS.toString (Z.of_nat k)). intros t.
  induction t as [|c t IH]; simpl; [done|by f_equal].
Qed.

Lemma renderBlock_rendered props expanded (i : nat) b :
  TIME_BLOCKS !! i = Some b →
  ∃ r, renderBlock props expanded i b = Some r ∧ rendered props b r.
Proof.
  intros Hb. unfold renderBlock, getFilteredSlotsForBlock, getBlockSelectedCount.
  rewrite (getSlotsForBlock_index i b Hb). cbn [mbind option_bind].
  rewrite filter_selected.
  unfold rendered, shownSlots, countIn.
  set (count := length (filter (λ slot, slotNumber slot ∈ selectedSlots props)
                               (blockSlotsOf b))).
  destruct (availableSlots props) as [available|] eqn:Havail.
  - destruct (decide (length available > 0)%nat) as [Hpos|Hzero].
    + rewrite (decide_False (P := available = []))
        by (intros ->; simpl in Hpos; lia).
      cbn [mbind option_bind]. rewrite bool_decide_true by done. cbn [andb].
      set (shown := filter (λ slot, slotNumber slot ∈ available) (blockSlotsOf b)).
      destruct shown as [|x shown'] eqn:Hshown.
      * rewrite bool_decide_true by done. eexists. split; [reflexivity|].
        split; [done|]. intros v Hv. discriminate.
      * rewrite bool_decide_false by done. eexists. split; [reflexivity|].
        split; [split; [discriminate|intros [_ ?]; discriminate]|].
        intros v [= <-].
        cbn [block blockSlots selectedCount hasSlots buttons badge isExpanded].
        repeat (split; [reflexivity|]).
        rewrite orb_true_r. f_equal. exact (badge_text (S (length shown'))).
    + assert (available = []) as -> by (destruct available; simpl in *; [done|lia]).
      rewrite decide_True by done.
      cbn [mbind option_bind]. rewrite bool_decide_true by done. cbn [andb].
      destruct (blockSlotsOf b) as [|x shown'] eqn:Hshown.
      * rewrite bool_decide_true by done. eexists. split; [reflexivity|].
        split; [done|]. intros v Hv. discriminate.
      * rewrite bool_decide_false by done. eexists. split; [reflexivity|].
        split; [split; [discriminate|intros [_ ?]; discriminate]|].
        intros v [= <-].
        cbn [block blockSlots selectedCount hasSlots buttons badge isExpanded].
        repeat (split; [reflexivity|]).
        rewrite orb_true_r. f_equal. exact (badge_text (S (length shown'))).
  - cbn [mbind option_bind].
    rewrite (bool_decide_false (is_Some None)) by (by intros [? ?]). cbn [andb].
    eexists. split; [reflexivity|].
    split; [split; [discriminate|intros [[? ?] _]; discriminate]|].
    intros v [= <-].
    cbn [block blockSlots selectedCount hasSlots buttons badge isExpanded].
    repeat (split; [reflexivity|]).
    rewrite orb_false_r.
    destruct (decide (count = 0%nat)) as [Hz|Hnz].
    + rewrite Hz. by rewrite bool_decide_false by lia.
    + rewrite bool_decide_true by lia. by rewrite badge_text.
Qed.

Lemma mapM_imap_rel {A B} (f : nat → A → option B) (R : A → B → Prop)
    (l : list A) (g : nat → nat) :
  (∀ i x, l !! i = Some x → ∃ y, f (g i) x = Some y ∧ R x y) →
  ∃ k, mapM (λ '(i, x), f i x) (imap (λ i x, (g i, x)) l) = Some k ∧ Forall2 R l k.
Proof.
  revert g. induction l as [|x l IH]; intros g Hall.
  - exists []. split; [done|constructor].
  - destruct (Hall 0%nat x eq_refl) as (y & Hy & HR).
    destruct (IH (g ∘ S)) as (k & Hk & HF).
    { intros i z Hz. apply (Hall (S i) z Hz). }
    exists (y :: k). split; [|by constructor].
    rewrite imap_cons. cbn [mapM]. rewrite Hy. cbn [mbind option_bind].
    change (mapM (λ '(i, x0), f i x0) (imap (λ i x0, ((g ∘ S) i, x0)) l) ≫=
              (λ k0, mret (y :: k0)) = Some (y :: k)).
    by rewrite Hk.
Qed.

Lemma render_rendered props expanded :
  ∃ views, render props expanded = Some views ∧
           Forall2 (rendered props) TIME_BLOCKS views.
Proof.
  unfold render.
  apply (mapM_imap_rel (renderBlock props expanded) (rendered props) TIME_BLOCKS id).
  intros i b Hb. by apply renderBlock_rendered.
Qed.

Lemma visible_shown props (l : list TimeBlock) views :
  Forall2 (rendered props) l views →
  visibleSlots views = concat (shownSlots props <$> l).
Proof.
  unfold visibleSlots. induction 1 as [|b r l views [Hnone Hsome] _ IH]; [done|].
  rewrite !fmap_cons. cbn [concat]. rewrite IH. f_equal.
  destruct r as [v|].
  - by destruct (Hsome v eq_refl) as (_ & -> & _).
  - symmetry. by apply Hnone.
Qed.

Lemma catalog_by_blocks : concat (blockSlotsOf <$> TIME_BLOCKS) = FIXED_TIME_SLOTS.
Proof. by vm_compute. Qed.

Lemma filter_concat {A} (P : A → Prop) `{∀ x, Decision (P x)} (ls : list (list A)) :
  filter P (concat ls) = concat (filter P <$> ls).
Proof.
  induction ls as [|l ls IH]; [done|].
  cbn [concat]. by rewrite filter_app, IH.
Qed.

Lemma length_concat_sum {A} (ls : list (list A)) :
  length (concat ls) = sum_list (length <$> ls).
Proof.
  induction ls as [|l ls IH]; [done|].
  cbn [concat]. rewrite length_app, IH. done.
Qed.

Lemma selected_in_catalog (selected : list Z) :
  NoDup selected → (∀ n, n ∈ selected → 1 <= n <= 48) →
  length (filter (λ slot, slotNumber slot ∈ selected) FIXED_TIME_SLOTS) = length selected.
Proof.
  intros Hnd Hrange.
  rewrite <- (length_fmap slotNumber). apply Permutation_length.
  apply NoDup_Permutation; [|done|].
  - apply NoDup_fmap_2_strong.
    + intros x y [_ Hx]%list_elem_of_filter [_ Hy]%list_elem_of_filter.
      by apply catalog_number_inj.
    + apply NoDup_filter. apply (NoDup_fmap_1 slotNumber).
      rewrite catalog_numbers. apply NoDup_seqZ.
  - intros n. rewrite list_elem_of_fmap. split.
    + by intros (x & -> & [Hx _]%list_elem_of_filter).
    + intros Hn. destruct (getSlotByNumber_in_range n (Hrange n Hn)) as (c & _ & Hc & Hcn).
      exists c. split; [done|]. apply list_elem_of_filter. split; [by rewrite Hcn|done].
Qed.

Lemma doctor_view_total props (l : list TimeBlock) views :
  availableSlots props = None →
  Forall2 (rendered props) l views →
  Forall is_Some views ∧ selectedTotal views = sum_list (countIn props <$> l).
Proof.
  intros Hnone. unfold selectedTotal.
  induction 1 as [|b r l views [Hhide Hsome] _ [IHsome IH]]; [by split|].
  destruct r as [v|].
  - split; [by constructor|]. rewrite !fmap_cons. cbn [sum_list sum_list_with].
    destruct (Hsome v eq_refl) as (_ & _ & -> & _). by rewrite <- IH.
  - destruct Hhide as [Hhide _]. destruct (Hhide eq_refl) as [[a Ha] _]. congruence.
Qed.

(** X12. The selector without [availableSlots] (the doctor's editor)
    shows all six blocks with the whole catalog, and the selected counts
    of the blocks add up to the number of catalog slots that are
    selected: to the length of [selectedSlots] when that list holds
    catalog numbers without repetition. *)
Theorem selector_doctor_view props expanded :
  availableSlots props = None →
  ∃ views, render props expanded = Some views ∧
    length views = 6%nat ∧
    Forall is_Some views ∧
    visibleSlots views = FIXED_TIME_SLOTS ∧
    selectedTotal views =
      length (filter (λ slot, slotNumber slot ∈ selectedSlots props) FIXED_TIME_SLOTS) ∧
    (NoDup (selectedSlots props) →
     (∀ n, n ∈ selectedSlots props → 1 <= n <= 48) →
     selectedTotal views = length (selectedSlots props)).
Proof.
  intros Hnone. destruct (render_rendered props expanded) as (views & Hrun & Hviews).
  exists views. split; [exact Hrun|].
  split; [by rewrite <- (Forall2_length _ _ _ Hviews)|].
  destruct (doctor_view_total props _ _ Hnone Hviews) as [Hall Htotal].
  split; [exact Hall|].
  assert (Hcount : selectedTotal views =
    length (filter (λ slot, slotNumber slot ∈ selectedSlots props) FIXED_TIME_SLOTS)).
  { rewrite Htotal, <- catalog_by_blocks, filter_concat, length_concat_sum.
    by rewrite <- !list_fmap_compose. }
  split; [|split; [exact Hcount|]].
  - rewrite (visible_shown props _ _ Hviews), <- catalog_by_blocks. f_equal.
    apply list_fmap_ext. intros _ b _. unfold shownSlots. by rewrite Hnone.
  - intros Hnd Hrange. rewrite Hcount. by apply selected_in_catalog.
Qed.

Lemma selector_doctor_view_witness :
  ∃ views, render (mkProps [1; 2; 9; 48] false None) ∅ = Some views ∧
           visibleSlots views = FIXED_TIME_SLOTS ∧
           selectedTotal views = 4%nat.
Proof.
  destruct (selector_doctor_view (mkProps [1; 2; 9; 48] false None) ∅ eq_refl)
    as (views & Hrun & _ & _ & Hvisible & _ & Htotal).
  exists views. split; [exact Hrun|]. split; [exact Hvisible|].
  apply Htotal.
  - apply (bool_decide_unpack (NoDup [1; 2; 9; 48])). by vm_compute.
  - intros n Hn. simpl in Hn. rewrite !elem_of_cons in Hn.
    destruct Hn as [->|[->|[->|[->|Hn]]]]; [lia..|by apply elem_of_nil in Hn].
Defined.

(** X11. Clicking a block header twice restores the set of expanded
    blocks; one click changes the state of that block only. *)
Theorem toggleBlock_involution expanded (i : Z) :
  toggleBlock (toggleBlock expanded i) i = expanded ∧
  (i ∈ toggleBlock expanded i ↔ i ∉ expanded) ∧
  (∀ j, j ≠ i → (j ∈ toggleBlock expanded i ↔ j ∈ expanded)).
Proof.
  unfold toggleBlock. destruct (decide (i ∈ expanded)) as [Hin|Hout].
  - rewrite decide_False
      by (rewrite elem_of_difference, elem_of_singleton; tauto).
    split; [|split].
    + apply set_eq. intros j.
      rewrite elem_of_union, elem_of_difference, elem_of_singleton.
      destruct (decide (j = i)) as [->|]; tauto.
    + rewrite elem_of_difference, elem_of_singleton. tauto.
    + intros j Hj. rewrite elem_of_difference, elem_of_singleton. tauto.
  - rewrite decide_True
      by (rewrite elem_of_union, elem_of_singleton; tauto).
    split; [|split].
    + apply set_eq. intros j.
      rewrite elem_of_difference, elem_of_union, elem_of_singleton.
      destruct (decide (j = i)) as [->|]; tauto.
    + rewrite elem_of_union, elem_of_singleton. tauto.
    + intros j Hj. rewrite elem_of_union, elem_of_singleton. tauto.
Qed.

Lemma toggleBlock_involution_witness :
  (3 : Z) ∈ toggleBlock {[1; 3]} 5 ↔ (3 : Z) ∈ ({[1; 3]} : gset Z).
Proof.
  destruct (toggleBlock_involution {[1; 3]} 5) as (_ & _ & Hother).
  apply (Hother 3). lia.
Defined.

Lemma shown_hidden_iff (available : list Z) b :
  b ∈ TIME_BLOCKS →
  filter (λ slot, slotNumber slot ∈ available) (blockSlotsOf b) = [] ↔
  ∀ n, n ∈ available → ¬ in_block b n.
Proof.
  intros Hb. split.
  - intros Hnil n Hn Hin.
    destruct (getSlotByNumber_in_range n (block_range b n Hb Hin)) as (c & _ & Hc & Hcn).
    apply (filter_nil_inv _ _ Hnil c).
    + apply elem_of_blockSlotsOf. by rewrite Hcn.
    + by rewrite Hcn.
  - intros Hnone. apply filter_none.
    intros slot [_ Hin]%elem_of_blockSlotsOf Hav. by apply (Hnone _ Hav).
Qed.

(** X13. The selector with a non-empty [availableSlots] (the patient's
    picker) offers exactly the catalog slots whose number is in that
    list, in catalog order; a block is hidden exactly when none of the
    listed numbers falls within its bounds, and the pill of a block that
    is shown counts the slots it offers. *)
Theorem selector_patient_view props expanded available :
  availableSlots props = Some available →
  available ≠ [] →
  ∃ views, render props expanded = Some views ∧
    length views = 6%nat ∧
    visibleSlots views =
      filter (λ slot, slotNumber slot ∈ available) FIXED_TIME_SLOTS ∧
    ∀ (i : nat) b, TIME_BLOCKS !! i = Some b →
      ∃ r, views !! i = Some r ∧
        (r = None ↔ ∀ n, n ∈ available → ¬ in_block b n) ∧
        ∀ v, r = Some v →
          (∀ slot, slot ∈ blockSlots v ↔
             slot ∈ FIXED_TIME_SLOTS ∧ in_block b (slotNumber slot) ∧
             slotNumber slot ∈ available) ∧
          badge v = Some (badgeText (length (blockSlots v))).
Proof.
  intros Havail Hne. destruct (render_rendered props expanded) as (views & Hrun & Hviews).
  exists views. split; [exact Hrun|].
  split; [by rewrite <- (Forall2_length _ _ _ Hviews)|].
  assert (Hshown : ∀ b, shownSlots props b =
            filter (λ slot, slotNumber slot ∈ available) (blockSlotsOf b)).
  { intros b. unfold shownSlots. rewrite Havail. by rewrite decide_False. }
  split.
  - rewrite (visible_shown props _ _ Hviews), <- catalog_by_blocks, filter_concat.
    rewrite <- list_fmap_compose. f_equal.
    apply list_fmap_ext. intros _ b _. apply Hshown.
  - intros i b Hb.
    destruct (Forall2_lookup_l _ _ _ _ _ Hviews Hb) as (r & Hr & [Hhide Hsome]).
    exists r. split; [exact Hr|]. split.
    + rewrite Hhide, Hshown, Havail.
      rewrite (shown_hidden_iff available b) by (by eapply list_elem_of_lookup_2).
      split; [by intros [_ ?]|]. intros Hnone. split; [by eexists|done].
    + intros v Hv. destruct (Hsome v Hv) as (_ & Hslots & _ & _ & _ & Hbadge).
      rewrite Havail in Hbadge. split; [|exact Hbadge].
      intros slot. rewrite Hslots, Hshown, list_elem_of_filter, elem_of_blockSlotsOf.
      tauto.
Qed.

Lemma selector_patient_view_witness :
  ∃ views, render (mkProps [] false (Some [3; 4; 47])) ∅ = Some views ∧
    visibleSlots views = filter (λ slot, slotNumber slot ∈ [3; 4; 47]) FIXED_TIME_SLOTS.
Proof.
  destruct (selector_patient_view (mkProps [] false (Some [3; 4; 47])) ∅ [3; 4; 47]
              eq_refl) as (views & Hrun & _ & Hvisible & _); [discriminate|].
  exists views. split; [exact Hrun|exact Hvisible].
Defined.



Lemma patient_visible props expanded available :
  availableSlots props = Some available →
  available ≠ [] →
  ∃ views, render props expanded = Some views ∧
    visibleSlots views = filter (λ slot, slotNumber slot ∈ available) FIXED_TIME_SLOTS.
Proof.
  intros Havail Hne. destruct (render_rendered props expanded) as (views & Hrun & Hviews).
  exists views. split; [exact Hrun|].
  rewrite (visible_shown props _ _ Hviews), <- catalog_by_blocks, filter_concat.
  rewrite <- list_fmap_compose. f_equal.
  apply list_fmap_ext. intros _ b _. unfold shownSlots. rewrite Havail.
  by rewrite decide_False.
Qed.

(** X15. On the booking page the slot picker appears only for a
    non-empty list of available slots, offers exactly the catalog slots
    whose number is among them, and a click on any slot it offers
    selects an available slot of that number; the picker then marks that
    number, and no other, as selected. *)
Theorem booking_click_selects selectedDate isFetchingSlots available selectedSlot
    props expanded :
  DoctorPage.slotPicker selectedDate isFetchingSlots available selectedSlot
    = DoctorPage.Selector props →
  available ≠ [] ∧
  ∃ views, render props expanded = Some views ∧
    visibleSlots views =
      filter (λ slot, slotNumber slot ∈ slotNumber <$> available) FIXED_TIME_SLOTS ∧
    ∀ slot, slot ∈ visibleSlots views →
      ∃ chosen,
        slotClick props (DoctorPage.onSlotToggle available) (slotNumber slot) selectedSlot
          = Some chosen ∧
        chosen ∈ available ∧ slotNumber chosen = slotNumber slot ∧
        ∃ props',
          DoctorPage.slotPicker selectedDate isFetchingSlots available (Some chosen)
            = DoctorPage.Selector props' ∧
          ∀ m, isSlotSelected props' m = true ↔ m = slotNumber slot.
Proof.
  unfold DoctorPage.slotPicker.
  destruct (decide (selectedDate = "")) as [|Hdate]; [discriminate|].
  destruct isFetchingSlots; [discriminate|].
  destruct (decide (length available > 0)%nat) as [Hpos|]; [|discriminate].
  intros [= <-].
  assert (Hne : available ≠ []) by (intros ->; simpl in Hpos; lia).
  split; [exact Hne|].
  destruct (patient_visible
              (mkProps match selectedSlot with Some slot => [slotNumber slot] | None => [] end
                       false (Some (slotNumber <$> available)))
              expanded (slotNumber <$> available) eq_refl) as (views & Hrun & Hvisible).
  { intros Hnil. apply Hne. by apply fmap_nil_inv in Hnil. }
  exists views. split; [exact Hrun|]. split; [exact Hvisible|].
  intros slot Hslot. rewrite Hvisible in Hslot.
  apply list_elem_of_filter in Hslot as [Hin _].
  apply list_elem_of_fmap in Hin as (found & Hnum & Hfound).
  unfold slotClick, DoctorPage.onSlotToggle. cbn [readOnly].
  destruct (find_is_Some (λ s, slotNumber s = slotNumber slot) available found)
    as [chosen Hchosen]; [done..|].
  rewrite Hchosen. apply find_Some in Hchosen as [Hcin Hcn].
  exists chosen. split; [done|]. split; [done|]. split; [done|].
  eexists. split; [reflexivity|].
  intros m. unfold isSlotSelected. cbn [selectedSlots].
  rewrite bool_decide_eq_true, list_elem_of_singleton. by rewrite Hcn.
Qed.

Lemma booking_click_selects_witness :
  let available := [mkTimeSlot 3 "09:30" "09:45"; mkTimeSlot 47 "20:30" "20:45"] in
  available ≠ [] ∧
  ∃ views, render (mkProps [] false (Some [3; 47])) ∅ = Some views ∧
    visibleSlots views = filter (λ slot, slotNumber slot ∈ [3; 47]) FIXED_TIME_SLOTS.
Proof.
  intros available.
  destruct (booking_click_selects "2026-11-09" false available None
              (mkProps [] false (Some [3; 47])) ∅ eq_refl)
    as (Hne & views & Hrun & Hvisible & _).
  split; [exact Hne|]. exists views. split; [exact Hrun|exact Hvisible].
Defined.

End Selector.

(** * The schedule listing of the booking page *)

Section Listing.
Import Types DoctorProfile Views.




End Listing.

(** * Further properties of the slot catalog *)

Section CatalogExtras.
Import TimeSlots Views.

Lemma getBlockForSlot_in_block b n :
  b ∈ TIME_BLOCKS → in_block b n → getBlockForSlot n = Some b.
Proof.
  intros Hb Hin. unfold TIME_BLOCKS in Hb.
  repeat (apply elem_of_cons in Hb as [->|Hb];
          [unfold in_block in Hin; simpl in Hin;
           unfold getBlockForSlot, JS.find, TIME_BLOCKS; simpl;
           repeat (rewrite decide_False by (unfold in_block; simpl; lia));
           rewrite decide_True by (unfold in_block; simpl; lia); done|]).
  by apply elem_of_nil in Hb.
Qed.

Lemma getSlotsForBlock_table (i : nat) b :
  TIME_BLOCKS !! i = Some b →
  getSlotsForBlock (Z.of_nat i) =
  Some (filter (λ slot, in_block b (slotNumber slot)) FIXED_TIME_SLOTS).
Proof.
  intros Hb. unfold getSlotsForBlock.
  pose proof (lookup_lt_Some _ _ _ Hb) as Hlt.
  rewrite decide_False by lia. rewrite Nat2Z.id, Hb. reflexivity.
Qed.

(** X17. Blocks and slots look each other up consistently. For a block
    of the table, every slot [getSlotsForBlock] returns at its index has
    that block as its [getBlockForSlot]; and every number whose
    [getBlockForSlot] is that block is the number of a catalog slot that
    [getSlotsForBlock] returns at the block's index. *)
Theorem block_slot_round_trip (i : nat) b :
  TIME_BLOCKS !! i = Some b →
  ∃ l, getSlotsForBlock (Z.of_nat i) = Some l ∧
    (∀ slot, slot ∈ l → getBlockForSlot (slotNumber slot) = Some b) ∧
    (∀ n, getBlockForSlot n = Some b →
       ∃ slot, getSlotByNumber n = Some slot ∧ slot ∈ l ∧ slotNumber slot = n).
Proof.
  intros Hb. pose proof (list_elem_of_lookup_2 _ _ _ Hb) as Hbin.
  eexists. split; [by apply getSlotsForBlock_table|]. split.
  - intros slot [Hin _]%list_elem_of_filter. by apply getBlockForSlot_in_block.
  - intros n Hn. apply find_Some in Hn as [_ Hin].
    assert (Hrange : 1 <= n <= 48).
    { unfold TIME_BLOCKS in Hbin.
      repeat (apply elem_of_cons in Hbin as [->|Hbin];
              [unfold in_block in Hin; simpl in Hin; lia|]).
      by apply elem_of_nil in Hbin. }
    destruct (getSlotByNumber_in_range n Hrange) as (slot & Hslot & Hcat & Hnum).
    exists slot. split; [done|]. split; [|done].
    apply list_elem_of_filter. by rewrite Hnum.
Qed.

Lemma block_slot_round_trip_witness :
  ∃ l, getSlotsForBlock 2 = Some l ∧
    (∀ slot, slot ∈ l → getBlockForSlot (slotNumber slot) =
                        Some (mkTimeBlock "1:00 PM - 3:00 PM" 17 24 "13:00" "15:00")).
Proof.
  destruct (block_slot_round_trip 2 (mkTimeBlock "1:00 PM - 3:00 PM" 17 24 "13:00" "15:00")
              eq_refl) as (l & Hrun & Hback & _).
  exists l. split; [exact Hrun|exact Hback].
Defined.

(** X16. The block table agrees with the catalog and with the
    formatter. For every block of the table, the slots
    [getSlotsForBlock] returns at its index start with the slot numbered
    [startSlot], which starts at the block's start time, and end with
    the slot numbered [endSlot], which ends at the block's end time; and
    the block's label is the 12-hour form of its start time, a dash, and
    the 12-hour form of its end time. *)
Theorem block_table_coherent (i : nat) b :
  TIME_BLOCKS !! i = Some b →
  ∃ l first final from to,
    getSlotsForBlock (Z.of_nat i) = Some l ∧
    head l = Some first ∧ last l = Some final ∧
    slotNumber first = startSlot b ∧ startTime first = blockStartTime b ∧
    slotNumber final = endSlot b ∧ endTime final = blockEndTime b ∧
    formatTime12Hour (blockStartTime b) = Some from ∧
    formatTime12Hour (blockEndTime b) = Some to ∧
    label b = from +:+ " - " +:+ to.
Proof.
  intros Hb.
  do 6 (destruct i as [|i];
        [injection Hb as <-; do 5 eexists;
         split; [by vm_compute|];
         split; [by vm_compute|];
         split; [by vm_compute|];
         split; [by vm_compute|];
         split; [by vm_compute|];
         split; [by vm_compute|];
         split; [by vm_compute|];
         split; [by vm_compute|];
         split; by vm_compute|]).
  discriminate Hb.
Qed.

Lemma block_table_coherent_witness :
  ∃ l first final from to,
    getSlotsForBlock 5 = Some l ∧
    head l = Some first ∧ last l = Some final ∧
    slotNumber first = 41 ∧ startTime first = "19:00" ∧
    slotNumber final = 48 ∧ endTime final = "21:00" ∧
    formatTime12Hour "19:00" = Some from ∧
    formatTime12Hour "21:00" = Some to ∧
    "7:00 PM - 9:00 PM" = from +:+ " - " +:+ to.
Proof.
  apply (block_table_coherent 5 (mkTimeBlock "7:00 PM - 9:00 PM" 41 48 "19:00" "21:00")).
  reflexivity.
Defined.

Lemma read12_formatTime12Hour h m :
  0 <= h <= 23 → 0 <= m <= 59 →
  formatTime12Hour (Spec.clock h m) ≫= read12 = Some (h, m).
Proof.
  intros Hh Hm.
  pose (ok := λ h m : Z,
    bool_decide (formatTime12Hour (Spec.clock h m) ≫= read12 = Some (h, m))).
  assert (Hall : forallb (λ h, forallb (ok h) (seqZ 0 60)) (seqZ 0 24) = true)
    by (by vm_compute).
  rewrite forallb_forall in Hall.
  specialize (Hall h). rewrite forallb_forall in Hall.
  eapply bool_decide_eq_true_1, Hall; apply list_elem_of_In, elem_of_seqZ; lia.
Qed.

(** X18. No two times of day are displayed alike: for valid hours and
    minutes, [formatTime12Hour] gives equal results only on equal
    times. *)
Theorem formatTime12Hour_injective h m h' m' :
  0 <= h <= 23 → 0 <= m <= 59 → 0 <= h' <= 23 → 0 <= m' <= 59 →
  formatTime12Hour (Spec.clock h m) = formatTime12Hour (Spec.clock h' m') →
  h = h' ∧ m = m'.
Proof.
  intros Hh Hm Hh' Hm' Heq.
  pose proof (read12_formatTime12Hour h m Hh Hm) as Hback.
  rewrite Heq, (read12_formatTime12Hour h' m' Hh' Hm') in Hback.
  by injection Hback as -> ->.
Qed.

Lemma formatTime12Hour_injective_witness :
  formatTime12Hour (Spec.clock 1 30) = formatTime12Hour (Spec.clock 1 30) ∧
  ((1 : Z) = 1 ∧ (30 : Z) = 30).
Proof.
  split; [reflexivity|].
  apply (formatTime12Hour_injective 1 30 1 30); [lia..|reflexivity].
Defined.

Lemma split_lacks c t : lacks c t → JS.split c t = [t].
Proof.
  induction t as [|c' t IH]; [done|]. simpl. intros [Hc Ht].
  rewrite decide_False by done. by rewrite IH.
Qed.

(** X22. [formatTime12Hour] does not validate its input. A string
    without a colon makes it fail; and an hour from 24 to 99 is not
    refused but shown with 12 subtracted and the suffix PM. *)
Theorem formatTime12Hour_unvalidated :
  (∀ t, lacks ":" t → formatTime12Hour t = None) ∧
  (∀ h m, 24 <= h <= 99 → 0 <= m <= 59 →
     formatTime12Hour (Spec.clock h m) =
     Some (Spec.numeral (h - 12) +:+ ":" +:+ Spec.two_digit m +:+ " PM")).
Proof.
  split.
  - intros t Ht. unfold formatTime12Hour. by rewrite split_lacks.
  - intros h m Hh Hm.
    pose (ok := λ h m : Z, bool_decide (formatTime12Hour (Spec.clock h m) =
      Some (Spec.numeral (h - 12) +:+ ":" +:+ Spec.two_digit m +:+ " PM"))).
    assert (Hall : forallb (λ h, forallb (ok h) (seqZ 0 60)) (seqZ 24 76) = true)
      by (by vm_compute).
    rewrite forallb_forall in Hall.
    specialize (Hall h). rewrite forallb_forall in Hall.
    eapply bool_decide_eq_true_1, Hall; apply list_elem_of_In, elem_of_seqZ; lia.
Qed.

Lemma formatTime12Hour_unvalidated_witness :
  formatTime12Hour "0900" = None ∧
  formatTime12Hour (Spec.clock 24 0) = Some "12:00 PM".
Proof.
  destruct formatTime12Hour_unvalidated as [Hcolon Hhour].
  split.
  - apply Hcolon. simpl. repeat split; discriminate.
  - apply (Hhour 24 0); lia.
Defined.

End CatalogExtras.
